(** * QuestNet layers: a shallow embedding of [layers.py]

    The development follows the source file top to bottom:
    - the process-wide layer-name counter ([_LAYER_UIDS], [get_layer_uid]);
    - the tensor helpers ([sparse_dropout], [dot]);
    - the [Layer] base class and its keyword validation;
    - [GraphConvolution] and [PathEmbedding].

    Floating-point tensors are idealised as tensors of real numbers, integer
    tensors are tensors over [Z].  A TensorFlow kernel that rejects its
    arguments (shape mismatch, index out of range, unsorted segment ids)
    is modelled by [None]; a Python exception raised by the layer code itself
    is modelled by [Err]. *)

From Stdlib Require Import Reals Lra Lia ZArith Ascii.
From stdpp Require Import gmap strings list fin_maps pretty.

(** ** Python values and exceptions *)

(** The values that reach [Layer.__init__] through [**kwargs]. *)
Inductive pyval : Type :=
  | PyNone
  | PyBool (b : bool)
  | PyInt (z : Z)
  | PyStr (s : string).

(** Python truthiness, as used by [if not name]. *)
Definition truthy (v : pyval) : bool :=
  match v with
  | PyNone => false
  | PyBool b => b
  | PyInt z => negb (z =? 0)%Z
  | PyStr s => negb (String.eqb s "")
  end.

Inductive exn : Type :=
  | AssertionError (msg : string)
  | TypeError
  | ValueError (msg : string).

Inductive result (A : Type) : Type :=
  | Ok (a : A)
  | Err (e : exn).
Arguments Ok {A} a.
Arguments Err {A} e.

(** [kwargs] is a Python dict: keys in insertion order, looked up by key. *)
Definition kwargs_t : Type := list (string * pyval).

Definition kwargs_keys (kwargs : kwargs_t) : list string := map fst kwargs.

Fixpoint kwargs_get (kwargs : kwargs_t) (key : string) (dflt : pyval) : pyval :=
  match kwargs with
  | [] => dflt
  | (k, v) :: rest => if String.eqb k key then v else kwargs_get rest key dflt
  end.

(** ** Strings: [str.lower] and [str] of an integer *)

Definition lower_ascii (c : ascii) : ascii :=
  let n := nat_of_ascii c in
  if (65 <=? n)%nat && (n <=? 90)%nat then ascii_of_nat (n + 32) else c.

Fixpoint lower (s : string) : string :=
  match s with
  | EmptyString => EmptyString
  | String c rest => String (lower_ascii c) (lower rest)
  end.

(** [str(n)] of a Python integer: its decimal digits. *)
Definition str (n : Z) : string := pretty n.

(** ** The global layer-name counter *)

(** [_LAYER_UIDS = {}] at import time. *)
Definition _LAYER_UIDS_init : gmap string Z := ∅.

(** [get_layer_uid]: returns the id and the updated dictionary. *)
Definition get_layer_uid (layer_name : string) (uids : gmap string Z)
  : Z * gmap string Z :=
  match uids !! layer_name with
  | None => (1%Z, <[layer_name := 1%Z]> uids)
  | Some v => ((v + 1)%Z, <[layer_name := (v + 1)%Z]> uids)
  end.

(** Successive calls of [get_layer_uid], one per tag of [tags], threading the
    dictionary; each returned id is paired with the tag it was issued for. *)
Fixpoint get_layer_uids (tags : list string) (uids : gmap string Z)
  : list (string * Z) * gmap string Z :=
  match tags with
  | [] => ([], uids)
  | t :: rest =>
      let '(n, uids1) := get_layer_uid t uids in
      let '(ns, uids2) := get_layer_uids rest uids1 in
      ((t, n) :: ns, uids2)
  end.

(** The ids that a run of calls issued for one tag, in call order. *)
Definition issued_for (tag : string) (log : list (string * Z)) : list Z :=
  map snd (List.filter (fun e => String.eqb (fst e) tag) log).

(** Number of calls made with a given tag. *)
Definition calls_with (tag : string) (tags : list string) : nat :=
  length (List.filter (fun t => String.eqb t tag) tags).

(** ** Dense and sparse tensors *)

Definition Rsum (l : list R) : R := fold_right Rplus 0%R l.

(** A rank-2 tensor: its static shape and its rows. *)
Record Tensor2 : Type := mkTensor2 {
  dim0 : nat;
  dim1 : nat;
  rows : list (list R)
}.

Definition well_shaped (t : Tensor2) : Prop :=
  length (rows t) = dim0 t /\ Forall (fun r => length r = dim1 t) (rows t).

Definition get2 (t : Tensor2) (i j : nat) : R :=
  nth j (nth i (rows t) []) 0%R.

Definition build2 (r c : nat) (f : nat -> nat -> R) : Tensor2 :=
  mkTensor2 r c (map (fun i => map (fun j => f i j) (seq 0 c)) (seq 0 r)).

(** [tf.matmul] of two rank-2 tensors; the inner dimensions must agree. *)
Definition matmul (x y : Tensor2) : option Tensor2 :=
  if (dim1 x =? dim0 y)%nat then
    Some (build2 (dim0 x) (dim1 y)
            (fun i j => Rsum (map (fun k => (get2 x i k * get2 y k j)%R)
                                  (seq 0 (dim1 x)))))
  else None.

(** [output += bias] for a rank-2 [output] and a rank-1 [bias], with
    NumPy-style broadcasting of the trailing dimension. *)
Definition add_bias (output : Tensor2) (bias : list R) : option Tensor2 :=
  let k := dim1 output in
  let n := length bias in
  if (k =? n)%nat then
    Some (build2 (dim0 output) k (fun i j => (get2 output i j + nth j bias 0)%R))
  else if (n =? 1)%nat then
    Some (build2 (dim0 output) k (fun i j => (get2 output i j + nth 0 bias 0)%R))
  else if (k =? 1)%nat then
    Some (build2 (dim0 output) n (fun i j => (get2 output i 0 + nth j bias 0)%R))
  else None.

(** A rank-2 [tf.SparseTensor] in coordinate form: one (row, column, value)
    triple per stored entry, in storage order, and the dense shape. *)
Record SparseTensor : Type := mkSparse {
  entries : list (Z * Z * R);
  dense_shape : nat * nat
}.

Definition entry_row (e : Z * Z * R) : Z := fst (fst e).
Definition entry_col (e : Z * Z * R) : Z := snd (fst e).
Definition entry_val (e : Z * Z * R) : R := snd e.

(** [tf.floor] on a real, and [tf.cast(_, tf.bool)]: nonzero is [True]. *)
Definition floor (r : R) : R := IZR (Int_part r).

Definition cast_bool (r : R) : bool :=
  if Req_dec_T r 0%R then false else true.

(** The entries of [l] at the positions of the set bits of [mask]; entries
    beyond the last bit are dropped. *)
Fixpoint retain {A : Type} (l : list A) (mask : list bool) : list A :=
  match l, mask with
  | e :: l', b :: mask' => if b then e :: retain l' mask' else retain l' mask'
  | _, _ => []
  end.

(** [tf.sparse_retain]: the stored entries are gathered at the positions of
    the set bits of [to_retain].  Mask and entries have run-time shapes here
    (both come from placeholders), so the static shape check of
    [sparse_retain] has nothing to compare: a mask shorter than the entries
    silently drops the entries beyond it, and a set bit beyond the last entry
    is an out-of-range gather. *)
Definition sparse_retain (x : SparseTensor) (to_retain : list bool)
  : option SparseTensor :=
  if existsb (fun b => b) (drop (length (entries x)) to_retain) then None
  else Some (mkSparse (retain (entries x) to_retain) (dense_shape x)).

(** A sparse tensor times a scalar: every stored value is scaled. *)
Definition sparse_scale (x : SparseTensor) (c : R) : SparseTensor :=
  mkSparse (map (fun e => (fst e, (entry_val e * c)%R)) (entries x))
           (dense_shape x).

(** A scalar operand is a Python float or a scalar tensor. *)
Inductive scalar : Type :=
  | PyFloat (r : R)
  | ScalarTensor (r : R).

Definition scalar_value (s : scalar) : R :=
  match s with
  | PyFloat r => r
  | ScalarTensor r => r
  end.

(** [1. / keep_prob]: Python's float division raises [ZeroDivisionError] on
    a zero float; on a tensor the division is TensorFlow's (a zero tensor
    gives an infinite factor, which real arithmetic does not represent). *)
Definition reciprocal (s : scalar) : option R :=
  match s with
  | PyFloat r => if Req_dec_T r 0%R then None else Some (1 / r)%R
  | ScalarTensor r => Some (1 / r)%R
  end.

(** [sparse_dropout].  [u] is the sample drawn by
    [tf.random_uniform(noise_shape)], one number per element of
    [noise_shape]. *)
Definition sparse_dropout (x : SparseTensor) (keep_prob : scalar) (u : list R)
  : option SparseTensor :=
  let random_tensor := map (fun r => (scalar_value keep_prob + r)%R) u in
  let dropout_mask := map (fun r => cast_bool (floor r)) random_tensor in
  pre_out ← sparse_retain x dropout_mask;
  c ← reciprocal keep_prob;
  Some (sparse_scale pre_out c).

Definition in_range (n : nat) (z : Z) : bool :=
  (0 <=? z)%Z && (z <? Z.of_nat n)%Z.

(** [tf.sparse_tensor_dense_matmul]: every stored entry [(i, k, v)] adds
    [v * y[k, j]] to [out[i, j]]; an entry outside the dense shape is
    rejected. *)
Definition sparse_tensor_dense_matmul (x : SparseTensor) (y : Tensor2)
  : option Tensor2 :=
  let '(m, n) := dense_shape x in
  if (n =? dim0 y)%nat then
    if forallb (fun e => in_range m (entry_row e) && in_range n (entry_col e))
               (entries x)
    then
      Some (build2 m (dim1 y)
              (fun i j =>
                 Rsum (map (fun e =>
                              if (entry_row e =? Z.of_nat i)%Z
                              then (entry_val e * get2 y (Z.to_nat (entry_col e)) j)%R
                              else 0%R)
                           (entries x))))
    else None
  else None.

(** The first argument of [dot] is a dense or a sparse tensor. *)
Inductive tensor_arg : Type :=
  | DenseT (t : Tensor2)
  | SparseT (s : SparseTensor).

(** [dot]: each TensorFlow product accepts only its own kind of left
    operand. *)
Definition dot (x : tensor_arg) (y : Tensor2) (sparse : bool) : option Tensor2 :=
  if sparse then
    match x with
    | SparseT s => sparse_tensor_dense_matmul s y
    | DenseT _ => None
    end
  else
    match x with
    | DenseT t => matmul t y
    | SparseT _ => None
    end.

(** The dense matrix that a sparse tensor denotes ([tf.sparse_tensor_to_dense]
    with its default index validation): the stored indices must lie inside
    the dense shape and be strictly increasing in row-major order; every
    other position holds zero. *)
Definition index_lt (a b : Z * Z * R) : bool :=
  (entry_row a <? entry_row b)%Z
  || ((entry_row a =? entry_row b)%Z && (entry_col a <? entry_col b)%Z).

Fixpoint strictly_ordered (l : list (Z * Z * R)) : bool :=
  match l with
  | a :: ((b :: _) as rest) => index_lt a b && strictly_ordered rest
  | _ => true
  end.

Fixpoint stored_at (l : list (Z * Z * R)) (i k : Z) : R :=
  match l with
  | [] => 0%R
  | e :: rest =>
      if (entry_row e =? i)%Z && (entry_col e =? k)%Z then entry_val e
      else stored_at rest i k
  end.

Definition densify (x : SparseTensor) : option Tensor2 :=
  let '(m, n) := dense_shape x in
  if forallb (fun e => in_range m (entry_row e) && in_range n (entry_col e))
             (entries x)
     && strictly_ordered (entries x)
  then Some (build2 m n (fun i k => stored_at (entries x) (Z.of_nat i) (Z.of_nat k)))
  else None.

(** The dense matrix of a sparse tensor whose entries come in any order:
    position [(i, k)] holds the sum of the values stored at [(i, k)]. *)
Definition summed_at (l : list (Z * Z * R)) (i k : Z) : R :=
  Rsum (map (fun e => if (entry_row e =? i)%Z && (entry_col e =? k)%Z
                      then entry_val e else 0%R) l).

Definition dense_of (x : SparseTensor) : Tensor2 :=
  let '(m, n) := dense_shape x in
  build2 m n (fun i k => summed_at (entries x) (Z.of_nat i) (Z.of_nat k)).

(** Every stored index lies inside the dense shape. *)
Definition in_bounds (x : SparseTensor) : bool :=
  forallb (fun e => in_range (fst (dense_shape x)) (entry_row e)
                    && in_range (snd (dense_shape x)) (entry_col e))
          (entries x).

(** [tf.nn.dropout(x, keep_prob)] on a dense tensor with a run-time
    [keep_prob]; [u i j] is the uniform sample drawn for position [(i, j)]. *)
Definition dropout (x : Tensor2) (keep_prob : R) (u : nat -> nat -> R) : Tensor2 :=
  build2 (dim0 x) (dim1 x)
    (fun i j => (get2 x i j / keep_prob * floor (keep_prob + u i j))%R).

(** ** The [Layer] base class *)

(** A layer variable is a rank-1 or a rank-2 tensor. *)
Inductive variable : Type :=
  | Var1 (v : list R)
  | Var2 (t : Tensor2).

Record Layer : Type := mkLayer {
  name : pyval;
  vars : gmap string variable;
  logging : pyval;
  sparse_inputs : bool
}.

Definition allowed_kwargs : gset string := {[ "name"; "logging" ]}.

(** The validation loop of [Layer.__init__]: the first key outside
    [allowed_kwargs] trips the [assert]. *)
Fixpoint check_kwargs (keys : list string) : result unit :=
  match keys with
  | [] => Ok tt
  | kwarg :: rest =>
      if decide (kwarg ∈ allowed_kwargs) then check_kwargs rest
      else Err (AssertionError ("Invalid keyword argument: " +:+ kwarg))
  end.

(** [Layer.__init__]; [cls] is [self.__class__.__name__].  Returns the
    object (or the exception) together with the updated [_LAYER_UIDS]. *)
Definition Layer_init (cls : string) (kwargs : kwargs_t) (uids : gmap string Z)
  : result Layer * gmap string Z :=
  match check_kwargs (kwargs_keys kwargs) with
  | Err e => (Err e, uids)
  | Ok _ =>
      let name0 := kwargs_get kwargs "name" PyNone in
      let '(name1, uids1) :=
        if truthy name0 then (name0, uids)
        else
          let layer := lower cls in
          let '(n, uids') := get_layer_uid layer uids in
          (PyStr (layer +:+ "_" +:+ str n), uids') in
      let logging0 := kwargs_get kwargs "logging" (PyBool false) in
      (Ok (mkLayer name1 ∅ logging0 false), uids1)
  end.

(** [Layer._call]: the identity. *)
Definition Layer_call {A : Type} (inputs : A) : A := inputs.

(** The values fed for the placeholders a layer reads. *)
Record Placeholders : Type := mkPlaceholders {
  ph_dropout : R;
  ph_support : Tensor2;
  ph_paths : list Z;
  ph_index : list Z;
  ph_sequences : list Z;
  ph_features : Tensor2;
  ph_flow_size : list R
}.

(** ** GraphConvolution *)

(** [dropout] is [None] for the Python constant [0.] and [Some d] for the
    value fed to [placeholders['dropout']]. *)
Record GraphConvolution : Type := mkGraphConvolution {
  gc_layer : Layer;
  gc_dropout : option R;
  gc_act : Tensor2 -> Tensor2;
  support : Tensor2;
  featureless : bool;
  bias : bool
}.

Definition lookup_var2 (vs : gmap string variable) (key : string) : option Tensor2 :=
  match vs !! key with
  | Some (Var2 t) => Some t
  | _ => None
  end.

Definition lookup_var1 (vs : gmap string variable) (key : string) : option (list R) :=
  match vs !! key with
  | Some (Var1 v) => Some v
  | _ => None
  end.

(** [GraphConvolution._call].  [tf.nn.dropout] returns its argument when
    [keep_prob] is the constant [1 - 0.]; [tf.add_n] of the one-element list
    [supports] is that element. *)
Definition GraphConvolution_call (self : GraphConvolution) (inputs : Tensor2)
    (u : nat -> nat -> R) : option Tensor2 :=
  let x := inputs in
  let x := match gc_dropout self with
           | None => x
           | Some d => dropout x (1 - d)%R u
           end in
  weights ← lookup_var2 (vars (gc_layer self)) "weights";
  pre_sup ← (if negb (featureless self) then dot (DenseT x) weights false
             else Some weights);
  support0 ← dot (DenseT (support self)) pre_sup false;
  let output := support0 in
  output ← (if bias self then
              b ← lookup_var1 (vars (gc_layer self)) "bias";
              add_bias output b
            else Some output);
  Some (gc_act self output).

(** ** PathEmbedding: the TensorFlow operations it uses *)

(** The default [epsilon] of [tf.math.l2_normalize], [1e-12]. *)
Definition epsilon : R := (/ 10 ^ 12)%R.

(** [tf.math.l2_normalize(x)] with the default [axis=None]: the squares are
    summed over every dimension of [x]. *)
Definition l2_normalize (x : Tensor2) : Tensor2 :=
  let square_sum := Rsum (map (fun r => Rsum (map (fun v => (v * v)%R) r)) (rows x)) in
  let x_inv_norm := (/ sqrt (Rmax square_sum epsilon))%R in
  mkTensor2 (dim0 x) (dim1 x) (map (map (fun v => (v * x_inv_norm)%R)) (rows x)).

(** [tf.gather(params, indices)] along axis 0. *)
Definition gather (params : Tensor2) (indices : list Z) : option (list (list R)) :=
  mapM (fun i => if in_range (dim0 params) i
                 then rows params !! Z.to_nat i else None) indices.

(** [tf.stack([a, b], axis=1)] of two rank-1 tensors. *)
Definition stack_pairs (a b : list Z) : option (list (Z * Z)) :=
  if (length a =? length b)%nat then Some (zip a b) else None.

(** [tf.reduce_max] of a rank-1 integer tensor.  On an empty tensor
    TensorFlow yields the lowest integer, and the padded shape built from it
    is rejected; that case is [None] here. *)
Definition reduce_max (l : list Z) : option Z :=
  match l with
  | [] => None
  | z :: rest => Some (fold_left Z.max rest z)
  end.

Definition ones_like (l : list Z) : list Z := map (fun _ => 1%Z) l.

Fixpoint nondecreasing (l : list Z) : bool :=
  match l with
  | a :: ((b :: _) as rest) => (a <=? b)%Z && nondecreasing rest
  | _ => true
  end.

(** [tf.math.segment_sum(data, segment_ids)] for rank-1 [data]: the ids must
    be non-negative and sorted; the output has one row per id up to the last
    one, and [data[i]] is added to row [segment_ids[i]]. *)
Definition segment_sum (data segment_ids : list Z) : option (list Z) :=
  if (length data =? length segment_ids)%nat
     && forallb (fun s => (0 <=? s)%Z) segment_ids
     && nondecreasing segment_ids
  then
    let output_rows := match last segment_ids with
                       | Some s => Z.to_nat (s + 1)
                       | None => 0%nat
                       end in
    Some (fold_left (fun out ds => alter (Z.add (fst ds)) (Z.to_nat (snd ds)) out)
                    (zip data segment_ids) (replicate output_rows 0%Z))
  else None.

(** [tf.scatter_nd(indices, updates, shape)] for rank-3 [shape] and index
    pairs: [updates[i]] is added to the slot [indices[i]] of a zero tensor. *)
Definition scatter_nd (indices : list (Z * Z)) (updates : list (list R))
    (shape : nat * nat * nat) : option (list (list (list R))) :=
  let '(n, t, d) := shape in
  if (length indices =? length updates)%nat
     && forallb (fun r => (length r =? d)%nat) updates
     && forallb (fun ps => in_range n (fst ps) && in_range t (snd ps)) indices
  then
    Some (fold_left
            (fun out pu =>
               alter (alter (fun old => zip_with Rplus old (snd pu))
                            (Z.to_nat (snd (fst pu))))
                     (Z.to_nat (fst (fst pu))) out)
            (zip indices updates)
            (replicate n (replicate t (replicate d 0%R))))
  else None.

(** One batch row of [tf.nn.dynamic_rnn]: the cell is applied at time steps
    below the row's sequence length, and the state is copied through at the
    later ones. *)
Fixpoint rnn_steps (cell : list R -> list R -> list R) (time : nat)
    (xs : list (list R)) (len : Z) (state : list R) : list R :=
  match xs with
  | [] => state
  | x :: xs' =>
      rnn_steps cell (S time) xs' len
        (if (Z.of_nat time <? len)%Z then cell x state else state)
  end.

(** [tf.nn.dynamic_rnn]: the final state of every batch row.  The initial
    state must be [[batch_size, state_size]] and the sequence lengths
    [[batch_size]].  (The per-step outputs are only kept for monitoring.) *)
Definition dynamic_rnn (cell : list R -> list R -> list R) (state_size : nat)
    (inputs : list (list (list R))) (initial_state : list (list R))
    (sequence_length : list Z) : option (list (list R)) :=
  let batch_size := length inputs in
  if (length initial_state =? batch_size)%nat
     && forallb (fun h => (length h =? state_size)%nat) initial_state
     && (length sequence_length =? batch_size)%nat
  then
    Some (zip_with (fun xh len => rnn_steps cell 0 (fst xh) len (snd xh))
                   (zip inputs initial_state) sequence_length)
  else None.

(** [tf.reshape] of a rank-1 tensor to [[n, 1]], and of a tensor given by
    its elements in row-major order to [[r, c]]. *)
Definition reshape_column (v : list R) (n : nat) : option (list (list R)) :=
  if (length v =? n)%nat then Some (map (fun x => [x]) v) else None.

Definition reshape2 (flat : list R) (r c : nat) : option Tensor2 :=
  if (length flat =? r * c)%nat
  then Some (build2 r c (fun i j => nth (i * c + j) flat 0%R))
  else None.

(** ** PathEmbedding *)

(** [path_update] is the step function of the [GRUCell]: input row and state
    row to new state row.  [flow_size] holds the result of the constructor's
    [tf.reshape]. *)
Record PathEmbedding : Type := mkPathEmbedding {
  pe_layer : Layer;
  num_quests : nat;
  num_paths : nat;
  paths : list Z;
  idx : list Z;
  seqs : list Z;
  features : Tensor2;
  flow_size : option (list (list R));
  link_state_dim : nat;
  path_state_dim : nat;
  path_update : list R -> list R -> list R;
  pe_act : Tensor2 -> Tensor2
}.

(** [PathEmbedding._call]. *)
Definition PathEmbedding_call (self : PathEmbedding) (inputs : Tensor2)
  : option Tensor2 :=
  let inputs := l2_normalize inputs in
  h_tild ← gather inputs (paths self);
  ids ← stack_pairs (idx self) (seqs self);
  m ← reduce_max (seqs self);
  let max_len := (m + 1)%Z in
  let shape := (num_quests self * num_paths self, Z.to_nat max_len,
                link_state_dim self) in
  lens ← segment_sum (ones_like (idx self)) (idx self);
  link_inputs ← scatter_nd ids h_tild shape;
  initial_state ← flow_size self;
  path_state ← dynamic_rnn (path_update self) (path_state_dim self)
                 link_inputs initial_state lens;
  reshape2 (concat path_state) (num_quests self) (num_paths self).

(** ** Constructors *)

(** The names TensorFlow accepts for a scope opened at the root of the
    graph: a letter, digit or dot, followed by letters, digits, underscores,
    dots, dashes and slashes.  (Inside an enclosing scope the first character
    may be any of the latter too; the layers are modelled as built at the
    root.) *)
Definition is_alnum (c : ascii) : bool :=
  let n := nat_of_ascii c in
  ((48 <=? n) && (n <=? 57) || (65 <=? n) && (n <=? 90)
   || (97 <=? n) && (n <=? 122))%nat.

Definition scope_first_char (c : ascii) : bool :=
  is_alnum c || Ascii.eqb c "."%char.

Definition scope_next_char (c : ascii) : bool :=
  is_alnum c || Ascii.eqb c "_"%char || Ascii.eqb c "."%char
  || Ascii.eqb c "-"%char || Ascii.eqb c "/"%char.

Fixpoint all_chars (p : ascii -> bool) (s : string) : bool :=
  match s with
  | EmptyString => true
  | String c rest => p c && all_chars p rest
  end.

Definition valid_scope_name (s : string) : bool :=
  match s with
  | EmptyString => false
  | String c rest => scope_first_char c && all_chars scope_next_char rest
  end.

(** [with tf.variable_scope(self.name + '_vars')]: the concatenation needs a
    string, and the scope name must be valid. *)
Definition variable_scope_vars (name0 : pyval) : result unit :=
  match name0 with
  | PyStr s =>
      if valid_scope_name (s +:+ "_vars") then Ok tt
      else Err (ValueError ("'" +:+ s +:+ "_vars' is not a valid scope name"))
  | _ => Err TypeError
  end.

(** The [name] keywords with which the scope can be opened: a falsy value
    (replaced by a default name) or a string that gives a valid scope
    name. *)
Definition scope_name_accepted (name0 : pyval) : bool :=
  match name0 with
  | PyStr s => String.eqb s "" || valid_scope_name (s +:+ "_vars")
  | v => negb (truthy v)
  end.

Section Constructors.

(** The initialisers of the [inits] module. *)
Variable glorot : nat -> nat -> Tensor2.
Variable zeros : nat -> list R.

(** [if dropout:] on a Python float. *)
Definition float_truthy (r : R) : bool :=
  if Req_dec_T r 0%R then false else true.

Definition GraphConvolution_init (input_dim output_dim : nat)
    (placeholders : Placeholders) (dropout0 : R) (sparse_inputs0 : bool)
    (act : Tensor2 -> Tensor2) (bias0 featureless0 : bool)
    (kwargs : kwargs_t) (uids : gmap string Z)
  : result GraphConvolution * gmap string Z :=
  match Layer_init "GraphConvolution" kwargs uids with
  | (Err e, uids1) => (Err e, uids1)
  | (Ok base, uids1) =>
      let d := if float_truthy dropout0 then Some (ph_dropout placeholders)
               else None in
      match variable_scope_vars (name base) with
      | Err e => (Err e, uids1)
      | Ok _ =>
          let vars1 := <["weights" := Var2 (glorot input_dim output_dim)]>
                         (vars base) in
          let vars2 := if bias0 then <["bias" := Var1 (zeros output_dim)]> vars1
                       else vars1 in
          (Ok (mkGraphConvolution
                 (mkLayer (name base) vars2 (logging base) sparse_inputs0)
                 d act (ph_support placeholders) featureless0 bias0),
           uids1)
      end
  end.

Definition PathEmbedding_init (num_quests0 num_paths0 link_state_dim0
    path_state_dim0 : nat) (placeholders : Placeholders)
    (gru : list R -> list R -> list R) (act : Tensor2 -> Tensor2)
    (kwargs : kwargs_t) (uids : gmap string Z)
  : result PathEmbedding * gmap string Z :=
  match Layer_init "PathEmbedding" kwargs uids with
  | (Err e, uids1) => (Err e, uids1)
  | (Ok base, uids1) =>
      (Ok (mkPathEmbedding base num_quests0 num_paths0
             (ph_paths placeholders) (ph_index placeholders)
             (ph_sequences placeholders) (ph_features placeholders)
             (reshape_column (ph_flow_size placeholders)
                             (num_quests0 * num_paths0))
             link_state_dim0 path_state_dim0 gru act),
       uids1)
  end.

End Constructors.

(** ** Auxiliary notions and example inputs *)

Definition dropout_mask_of (keep_prob : R) (u : list R) : list bool :=
  map (fun r => cast_bool (floor r)) (map (fun r => (keep_prob + r)%R) u).

Definition sparse_example : SparseTensor :=
  mkSparse [((0%Z, 1%Z), 2%R); ((1%Z, 0%Z), (-3)%R)] (2%nat, 2%nat).

(** The same matrix with its entries stored in the other order. *)
Definition sparse_unordered_example : SparseTensor :=
  mkSparse [((1%Z, 0%Z), (-3)%R); ((0%Z, 1%Z), 2%R)] (2%nat, 2%nat).

Definition dense_example : Tensor2 :=
  build2 2 2 (fun i k => stored_at (entries sparse_example) (Z.of_nat i) (Z.of_nat k)).

Definition y_example : Tensor2 :=
  mkTensor2 2 1 [[5%R]; [7%R]].

(** The output of a featureless layer, written from the support, the
    weights and the bias alone. *)
Definition featureless_output (self : GraphConvolution) (W : Tensor2)
  : option Tensor2 :=
  gc_act self <$>
    (sw ← matmul (support self) W;
     if bias self then
       b ← lookup_var1 (vars (gc_layer self)) "bias"; add_bias sw b
     else Some sw).

(** [tf.nn.relu], the default activation. *)
Definition relu (t : Tensor2) : Tensor2 :=
  mkTensor2 (dim0 t) (dim1 t) (map (map (fun v => Rmax v 0)) (rows t)).

(** An activation keeps the shape of its argument. *)
Definition shape_preserving (act : Tensor2 -> Tensor2) : Prop :=
  forall t, dim0 (act t) = dim0 t /\ dim1 (act t) = dim1 t /\
            (well_shaped t -> well_shaped (act t)).

(** The variables of the layer have the shapes the constructor gives them:
    [weights] is [[input_dim, output_dim]] and [bias], when enabled,
    [[output_dim]]. *)
Definition gc_shapes (self : GraphConvolution) (input_dim output_dim : nat) : Prop :=
  (exists W, lookup_var2 (vars (gc_layer self)) "weights" = Some W /\
             dim0 W = input_dim /\ dim1 W = output_dim) /\
  (bias self = true ->
   exists b, lookup_var1 (vars (gc_layer self)) "bias" = Some b /\
             length b = output_dim) /\
  shape_preserving (gc_act self).

Definition dropped (self : GraphConvolution) (X : Tensor2) (u : nat -> nat -> R)
  : Tensor2 :=
  match gc_dropout self with
  | None => X
  | Some d => dropout X (1 - d)%R u
  end.

Definition W_example : Tensor2 := mkTensor2 2 1 [[1%R]; [2%R]].
Definition S_example : Tensor2 := mkTensor2 2 2 [[1%R; 0%R]; [1%R; 1%R]].
Definition X_example : Tensor2 := mkTensor2 2 2 [[3%R; 4%R]; [5%R; 6%R]].

Definition gc_example (featureless0 : bool) : GraphConvolution :=
  mkGraphConvolution
    (mkLayer (PyStr "graphconvolution_1")
             (<["bias" := Var1 [0%R]]> (<["weights" := Var2 W_example]> ∅))
             (PyBool false) false)
    (Some (1 / 2)%R) relu S_example featureless0 true.

(** The sum of the squares of every entry of a tensor. *)
Definition sum_squares (x : Tensor2) : R :=
  Rsum (map (fun r => Rsum (map (fun v => (v * v)%R) r)) (rows x)).

(** Row-wise normalisation as the specification words it: every row is
    divided by its own Euclidean norm. *)
Definition row_norm (r : list R) : R := sqrt (Rsum (map (fun v => (v * v)%R) r)).

Definition l2_normalize_rows (x : Tensor2) : Tensor2 :=
  mkTensor2 (dim0 x) (dim1 x)
    (map (fun r => map (fun v => (v / row_norm r)%R) r) (rows x)).

Definition links_example : Tensor2 := mkTensor2 2 1 [[3%R]; [4%R]].

Definition Zsum (l : list Z) : Z := fold_right Z.add 0%Z l.

(** Number of steps [i] with [ids[i] = p]. *)
Definition count_steps (p : Z) (ids : list Z) : Z :=
  Z.of_nat (length (List.filter (Z.eqb p) ids)).

(** The accumulation loop of [segment_sum] on [ones_like ids]. *)
Definition segment_fold (ids : list Z) (out : list Z) : list Z :=
  fold_left (fun out ds => alter (Z.add (fst ds)) (Z.to_nat (snd ds)) out)
            (zip (ones_like ids) ids) out.

(** A toy recurrent cell and the two-path example of the specification. *)
Definition cell_example (x h : list R) : list R :=
  map (fun v => (v + Rsum x)%R) h.

Definition pe_example : PathEmbedding :=
  mkPathEmbedding (mkLayer (PyStr "pathembedding_1") ∅ (PyBool false) false)
    1 2 [0%Z; 1%Z; 2%Z] [0%Z; 0%Z; 1%Z] [0%Z; 1%Z; 0%Z]
    (mkTensor2 0 0 []) (reshape_column [5%R; 7%R] 2) 1 1 cell_example relu.

(** The accumulation loop of [scatter_nd]. *)
Definition scatter_fold (l : list (Z * Z * list R)) (init : list (list (list R)))
  : list (list (list R)) :=
  fold_left
    (fun out pu =>
       alter (alter (fun old => zip_with Rplus old (snd pu))
                    (Z.to_nat (snd (fst pu))))
             (Z.to_nat (fst (fst pu))) out)
    l init.

(** Two paths of which only the first owns a step. *)
Definition pe_trailing_example : PathEmbedding :=
  mkPathEmbedding (mkLayer (PyStr "pathembedding_1") ∅ (PyBool false) false)
    1 2 [0%Z] [0%Z] [0%Z]
    (mkTensor2 0 0 []) (reshape_column [5%R; 7%R] 2) 1 1 cell_example relu.

Definition link_example : Tensor2 := mkTensor2 1 1 [[1%R]].

(** The inputs the forward pass accepts: a link tensor of the declared
    width, index arrays of one length, link indices and path ids in range,
    path ids sorted (as [segment_sum] requires), non-negative positions, one
    initial scalar per path, and a cell whose state has width
    [path_state_dim = 1]. *)
Definition valid_inputs (self : PathEmbedding) (flow : list R) (X : Tensor2) : Prop :=
  let n := (num_quests self * num_paths self)%nat in
  well_shaped X /\ dim1 X = link_state_dim self /\
  length (paths self) = length (idx self) /\
  length (idx self) = length (seqs self) /\
  Forall (fun l => in_range (dim0 X) l = true) (paths self) /\
  Forall (fun p => in_range n p = true) (idx self) /\
  nondecreasing (idx self) = true /\
  Forall (fun s => (0 <= s)%Z) (seqs self) /\
  flow_size self = reshape_column flow n /\ length flow = n /\
  path_state_dim self = 1%nat /\
  (forall x h, length h = 1%nat -> length (path_update self x h) = 1%nat).

(** Three paths of which the middle one owns no step. *)
Definition pe_gap_example : PathEmbedding :=
  mkPathEmbedding (mkLayer (PyStr "pathembedding_1") ∅ (PyBool false) false)
    1 3 [0%Z; 0%Z] [0%Z; 2%Z] [0%Z; 0%Z]
    (mkTensor2 0 0 []) (reshape_column [5%R; 7%R; 9%R] 3) 1 1 cell_example relu.

(** The link embeddings of the specification's end-to-end example. *)
Definition links3_example : Tensor2 := mkTensor2 3 1 [[1%R]; [2%R]; [3%R]].

(** ** Runs of constructor calls *)

Fixpoint Layer_inits (reqs : list (string * kwargs_t)) (uids : gmap string Z)
  : list (result Layer) * gmap string Z :=
  match reqs with
  | [] => ([], uids)
  | (cls, kwargs) :: rest =>
      let '(r, uids1) := Layer_init cls kwargs uids in
      let '(rs, uids2) := Layer_inits rest uids1 in
      (r :: rs, uids2)
  end.

Fixpoint no_underscore (s : string) : bool :=
  match s with
  | EmptyString => true
  | String c rest => negb (Ascii.eqb c "_"%char) && no_underscore rest
  end.

Definition default_named (req : string * kwargs_t) : Prop :=
  Forall (fun k => k ∈ allowed_kwargs) (kwargs_keys req.2) /\
  truthy (kwargs_get req.2 "name" PyNone) = false.

Definition default_name_of (e : string * Z) : pyval :=
  PyStr (e.1 +:+ "_" +:+ str e.2).

(** The Bernoulli decision of inverted dropout: keep when the uniform sample
    is at least [1 - keep_prob]. *)
Definition keeps (keep_prob r : R) : bool :=
  if Rle_dec (1 - keep_prob) r then true else false.

(** ** Dense *)

(** [dense_dropout] is [None] for the Python constant [0.] and [Some d] for
    the value fed to [placeholders['dropout']]; [num_features_nonzero] is the
    value fed to the placeholder of that name. *)
Record Dense : Type := mkDense {
  dense_layer : Layer;
  dense_dropout : option R;
  dense_act : Tensor2 -> Tensor2;
  dense_featureless : bool;
  dense_bias : bool;
  num_features_nonzero : nat
}.

(** [Dense.__init__]; [glorot] and [zeros] are the initialisers of the
    [inits] module. *)
Definition Dense_init (glorot : nat -> nat -> Tensor2) (zeros : nat -> list R)
    (input_dim output_dim : nat) (placeholders : Placeholders)
    (num_features_nonzero0 : nat) (dropout0 : R) (sparse_inputs0 : bool)
    (act : Tensor2 -> Tensor2) (bias0 featureless0 : bool)
    (kwargs : kwargs_t) (uids : gmap string Z)
  : result Dense * gmap string Z :=
  match Layer_init "Dense" kwargs uids with
  | (Err e, uids1) => (Err e, uids1)
  | (Ok base, uids1) =>
      let d := if float_truthy dropout0 then Some (ph_dropout placeholders)
               else None in
      match variable_scope_vars (name base) with
      | Err e => (Err e, uids1)
      | Ok _ =>
          let vars1 := <["weights" := Var2 (glorot input_dim output_dim)]>
                         (vars base) in
          let vars2 := if bias0 then <["bias" := Var1 (zeros output_dim)]> vars1
                       else vars1 in
          (Ok (mkDense (mkLayer (name base) vars2 (logging base) sparse_inputs0)
                       d act featureless0 bias0 num_features_nonzero0),
           uids1)
      end
  end.

(** [Dense._call].  [us k] is the uniform sample drawn for the [k]-th element
    of the sparse noise, [ud i j] the one drawn for position [(i, j)] of a
    dense input.  [sparse_retain] accepts only a sparse tensor and
    [tf.nn.dropout] only a dense one.  [1 - self.dropout] is a Python float
    for the constant [0.] and a tensor for the placeholder. *)
Definition Dense_call (self : Dense) (inputs : tensor_arg)
    (us : nat -> R) (ud : nat -> nat -> R) : option Tensor2 :=
  x ← (if sparse_inputs (dense_layer self) then
         match inputs with
         | SparseT s =>
             SparseT <$>
               sparse_dropout s
                 (match dense_dropout self with
                  | None => PyFloat (1 - 0)%R
                  | Some d => ScalarTensor (1 - d)%R
                  end)
                 (map us (seq 0 (num_features_nonzero self)))
         | DenseT _ => None
         end
       else
         match inputs with
         | DenseT t =>
             Some (DenseT (match dense_dropout self with
                           | None => t
                           | Some d => dropout t (1 - d)%R ud
                           end))
         | SparseT _ => None
         end);
  weights ← lookup_var2 (vars (dense_layer self)) "weights";
  output ← dot x weights (sparse_inputs (dense_layer self));
  output ← (if dense_bias self then
              b ← lookup_var1 (vars (dense_layer self)) "bias";
              add_bias output b
            else Some output);
  Some (dense_act self output).

(** The first [n] stored entries of a sparse tensor. *)
Definition truncate_entries (n : nat) (s : SparseTensor) : SparseTensor :=
  mkSparse (take n (entries s)) (dense_shape s).

(** The same layer with the [sparse_inputs] flag replaced. *)
Definition with_sparse_inputs (self : Dense) (b : bool) : Dense :=
  mkDense (mkLayer (name (dense_layer self)) (vars (dense_layer self))
                   (logging (dense_layer self)) b)
          (dense_dropout self) (dense_act self) (dense_featureless self)
          (dense_bias self) (num_features_nonzero self).

Definition arg_rows (x : tensor_arg) : nat :=
  match x with
  | DenseT t => dim0 t
  | SparseT s => fst (dense_shape s)
  end.

Definition dense_shapes (self : Dense) (input_dim output_dim : nat) : Prop :=
  (exists W, lookup_var2 (vars (dense_layer self)) "weights" = Some W /\
             dim0 W = input_dim /\ dim1 W = output_dim) /\
  (dense_bias self = true ->
   exists b, lookup_var1 (vars (dense_layer self)) "bias" = Some b /\
             length b = output_dim) /\
  shape_preserving (dense_act self).

(** A tensor with every entry multiplied by [c]. *)
Definition scale2 (c : R) (x : Tensor2) : Tensor2 :=
  mkTensor2 (dim0 x) (dim1 x) (map (map (fun v => (c * v)%R)) (rows x)).

(** ** PathEmbedding: steps and slots *)

(** The normalised embedding of the link that step [i] reads. *)
Definition step_input (self : PathEmbedding) (X : Tensor2) (i : nat) : list R :=
  nth (Z.to_nat (nth i (paths self) 0%Z)) (rows (l2_normalize X)) [].

(** The state after the cell has consumed the given steps, in order. *)
Definition run_steps (self : PathEmbedding) (X : Tensor2) (steps : list nat)
    (h0 : list R) : list R :=
  fold_left (fun h i => path_update self (step_input self X i) h) steps h0.

(** [steps] lists steps of path [p] by position: the [t]-th one has path id
    [p] and sequence position [t]. *)
Definition steps_of_path (self : PathEmbedding) (p : nat) (steps : list nat)
  : Prop :=
  forall t i, steps !! t = Some i ->
              idx self !! i = Some (Z.of_nat p) /\
              seqs self !! i = Some (Z.of_nat t).

(** The slot [(p, s)] of a padded rank-3 tensor. *)
Definition slot (out : list (list (list R))) (p s : nat) : option (list R) :=
  out !! p ≫= (fun r => r !! s).

(** Initialisers of the right shapes, and fed placeholder values. *)
Definition glorot_example (a b : nat) : Tensor2 := build2 a b (fun _ _ => 0%R).
Definition zeros_example (n : nat) : list R := replicate n 0%R.

Definition ph_example : Placeholders :=
  mkPlaceholders (1 / 2)%R S_example [0%Z; 1%Z; 2%Z] [0%Z; 0%Z; 1%Z]
                 [0%Z; 1%Z; 0%Z] (mkTensor2 0 0 []) [5%R; 7%R].

Definition dense_layer_short_example : Dense :=
  mkDense (mkLayer (PyStr "dense_2") (<["weights" := Var2 W_example]> ∅)
                   (PyBool false) true)
          None relu false false 1.

Definition dense_layer_example : Dense :=
  mkDense (mkLayer (PyStr "dense_1") (<["weights" := Var2 W_example]> ∅)
                   (PyBool false) false)
          None relu false false 2.

(** * Properties *)

(** ** Keyword validation and default names *)

Lemma check_kwargs_err (keys : list string) (key : string) :
  key ∈ keys -> key ∉ allowed_kwargs ->
  exists prefix bad suffix,
    keys = (prefix ++ bad :: suffix) /\
    Forall (fun k => k ∈ allowed_kwargs) prefix /\
    (bad ∉ allowed_kwargs) /\
    check_kwargs keys
    = Err (AssertionError ("Invalid keyword argument: " +:+ bad)).
Proof.
  induction keys as [|k rest IH]; intros Hin Hbad.
  - inversion Hin.
  - simpl. destruct (decide (k ∈ allowed_kwargs)) as [Hk|Hk].
    + assert (Hin' : key ∈ rest).
      { apply elem_of_cons in Hin as [->|]; [contradiction|done]. }
      destruct (IH Hin' Hbad) as (p & b & s & -> & Hp & Hb & Hc).
      exists (k :: p), b, s. repeat split; auto.
    + exists [], k, rest. repeat split; auto.
Qed.

(** C9. If the keyword arguments contain a key outside [{name, logging}],
    construction stops at the [assert]: the result is an [AssertionError]
    whose message is ["Invalid keyword argument: "] followed by an offending
    key (the first one in the dictionary's order, hence the given key when it
    is the only offending one), no layer object is produced and the name
    counter is untouched.  The same holds for [GraphConvolution] and
    [PathEmbedding], whose constructors start with the base constructor. *)
Theorem Layer_init_rejects_unknown_key
    (cls : string) (kwargs : kwargs_t) (uids : gmap string Z) (key : string) :
  key ∈ kwargs_keys kwargs -> key ∉ allowed_kwargs ->
  exists prefix bad suffix,
    kwargs_keys kwargs = (prefix ++ bad :: suffix) /\
    Forall (fun k => k ∈ allowed_kwargs) prefix /\
    (bad ∉ allowed_kwargs) /\
    ((forall k, k ∈ kwargs_keys kwargs -> k ∉ allowed_kwargs -> k = key) ->
     bad = key) /\
    let e := AssertionError ("Invalid keyword argument: " +:+ bad) in
    Layer_init cls kwargs uids = (Err e, uids) /\
    (forall glorot zeros i o ph d s act b f,
        GraphConvolution_init glorot zeros i o ph d s act b f kwargs uids
        = (Err e, uids)) /\
    (forall nq np ld pd ph gru act,
        PathEmbedding_init nq np ld pd ph gru act kwargs uids = (Err e, uids)).
Proof.
  intros Hin Hbad.
  destruct (check_kwargs_err _ _ Hin Hbad) as (p & b & s & Hk & Hp & Hb & Hc).
  exists p, b, s. split; [exact Hk|]. split; [exact Hp|]. split; [exact Hb|].
  split.
  - intros Huniq. apply Huniq; [|exact Hb].
    rewrite Hk. apply elem_of_app. right. apply elem_of_cons. by left.
  - assert (HL : forall c, Layer_init c kwargs uids
                 = (Err (AssertionError ("Invalid keyword argument: " +:+ b)), uids)).
    { intros c. unfold Layer_init. by rewrite Hc. }
    cbv zeta. split; [apply HL|]. split; intros.
    + unfold GraphConvolution_init. by rewrite HL.
    + unfold PathEmbedding_init. by rewrite HL.
Qed.

Lemma Layer_init_rejects_unknown_key_witness :
  exists prefix bad suffix,
    kwargs_keys [("name", PyStr "gc"); ("units", PyInt 3)]
    = (prefix ++ bad :: suffix) /\
    Forall (fun k => k ∈ allowed_kwargs) prefix /\
    (bad ∉ allowed_kwargs) /\
    ((forall k, k ∈ kwargs_keys [("name", PyStr "gc"); ("units", PyInt 3)] ->
                k ∉ allowed_kwargs -> k = "units") ->
     bad = "units") /\
    let e := AssertionError ("Invalid keyword argument: " +:+ bad) in
    Layer_init "Layer" [("name", PyStr "gc"); ("units", PyInt 3)] ∅ = (Err e, ∅) /\
    (forall glorot zeros i o ph d s act b f,
        GraphConvolution_init glorot zeros i o ph d s act b f
          [("name", PyStr "gc"); ("units", PyInt 3)] ∅ = (Err e, ∅)) /\
    (forall nq np ld pd ph gru act,
        PathEmbedding_init nq np ld pd ph gru act
          [("name", PyStr "gc"); ("units", PyInt 3)] ∅ = (Err e, ∅)).
Proof.
  apply (Layer_init_rejects_unknown_key "Layer"
           [("name", PyStr "gc"); ("units", PyInt 3)] ∅ "units").
  - simpl. apply elem_of_cons. right. apply elem_of_cons. by left.
  - unfold allowed_kwargs. intros H.
    apply elem_of_union in H as [H|H]; apply elem_of_singleton in H; discriminate.
Defined.

Lemma get_layer_uid_eq (t : string) (uids : gmap string Z) :
  get_layer_uid t uids
  = ((default 0 (uids !! t) + 1)%Z, <[t := (default 0 (uids !! t) + 1)%Z]> uids).
Proof. unfold get_layer_uid. destruct (uids !! t); reflexivity. Qed.

Lemma issued_for_get_layer_uids (tags : list string) :
  forall (uids : gmap string Z) (tag : string),
    issued_for tag (get_layer_uids tags uids).1
    = map (fun k => (default 0 (uids !! tag) + Z.of_nat k)%Z)
          (seq 1 (calls_with tag tags)).
Proof.
  induction tags as [|t rest IH]; intros uids tag; [reflexivity|].
  simpl. rewrite get_layer_uid_eq.
  specialize (IH (<[t := (default 0 (uids !! t) + 1)%Z]> uids) tag).
  destruct (get_layer_uids rest _) as [ns uids2]. simpl in *.
  unfold issued_for, calls_with in *. simpl.
  destruct (String.eqb_spec t tag) as [->|Hne]; simpl.
  - rewrite IH, lookup_insert_eq. simpl. f_equal.
    rewrite <- (seq_shift _ 1), map_map. apply map_ext. intros k. lia.
  - rewrite IH, lookup_insert_ne by exact Hne. reflexivity.
Qed.

(** C10. From the empty dictionary, the ids issued for any one tag by any
    sequence of [get_layer_uid] calls are 1, 2, 3, ... in call order; and a
    layer built with valid keywords and no (truthy) [name] is named
    [<tag>_<n>], where [tag] is the lower-cased class name and [n] the id
    [get_layer_uid] returns for that tag. *)
Theorem get_layer_uid_counts_and_default_name :
  (forall (tags : list string) (tag : string),
      issued_for tag (get_layer_uids tags _LAYER_UIDS_init).1
      = map Z.of_nat (seq 1 (calls_with tag tags)))
  /\
  (forall (cls : string) (kwargs : kwargs_t) (uids : gmap string Z),
      Forall (fun k => k ∈ allowed_kwargs) (kwargs_keys kwargs) ->
      truthy (kwargs_get kwargs "name" PyNone) = false ->
      exists self,
        Layer_init cls kwargs uids
        = (Ok self, (get_layer_uid (lower cls) uids).2) /\
        name self
        = PyStr (lower cls +:+ "_" +:+ str (get_layer_uid (lower cls) uids).1)).
Proof.
  split.
  - intros tags tag. rewrite issued_for_get_layer_uids.
    unfold _LAYER_UIDS_init. rewrite lookup_empty. simpl.
    apply map_ext. intros k. lia.
  - intros cls kwargs uids Hall Hname. unfold Layer_init.
    assert (Hc : check_kwargs (kwargs_keys kwargs) = Ok tt).
    { induction Hall as [|k ks Hk _ IH]; [reflexivity|].
      simpl. destruct (decide (k ∈ allowed_kwargs)); [exact IH|contradiction]. }
    rewrite Hc, Hname.
    destruct (get_layer_uid (lower cls) uids) as [n uids'] eqn:E. simpl.
    eexists. split; reflexivity.
Qed.

Lemma get_layer_uid_counts_and_default_name_witness :
  issued_for "dense"
    (get_layer_uids ["dense"; "graphconvolution"; "dense"] _LAYER_UIDS_init).1
  = map Z.of_nat (seq 1 (calls_with "dense" ["dense"; "graphconvolution"; "dense"]))
  /\
  exists self,
    Layer_init "PathEmbedding" [("logging", PyBool true)] {[ "pathembedding" := 2%Z ]}
    = (Ok self, (get_layer_uid (lower "PathEmbedding")
                               {[ "pathembedding" := 2%Z ]}).2) /\
    name self
    = PyStr (lower "PathEmbedding" +:+ "_" +:+
             str (get_layer_uid (lower "PathEmbedding")
                                {[ "pathembedding" := 2%Z ]}).1).
Proof.
  destruct get_layer_uid_counts_and_default_name as [Hseq Hname]. split.
  - exact (Hseq ["dense"; "graphconvolution"; "dense"] "dense").
  - apply (Hname "PathEmbedding" [("logging", PyBool true)]
                 {[ "pathembedding" := 2%Z ]}).
    + repeat constructor.
    + reflexivity.
Defined.

Example get_layer_uids_run :
  (get_layer_uids ["dense"; "graphconvolution"; "dense"] _LAYER_UIDS_init).1
  = [("dense", 1%Z); ("graphconvolution", 1%Z); ("dense", 2%Z)].
Proof. vm_compute. reflexivity. Qed.

Example Layer_init_default_name :
  (Layer_init "PathEmbedding" [("logging", PyBool true)]
              {[ "pathembedding" := 2%Z ]}).1
  = Ok (mkLayer (PyStr "pathembedding_3") ∅ (PyBool true) false).
Proof. vm_compute. reflexivity. Qed.

(** ** Sparse dropout *)

Lemma floor_one_plus (r : R) : (0 <= r < 1)%R -> floor (1 + r) = 1%R.
Proof.
  intros Hr. unfold floor.
  rewrite <- (Int_part_spec (1 + r) 1%Z); [reflexivity|]. simpl. lra.
Qed.

Lemma cast_bool_one : cast_bool 1 = true.
Proof. unfold cast_bool. destruct (Req_dec_T 1 0); [lra|reflexivity]. Qed.

Lemma dropout_mask_keep_all (u : list R) :
  Forall (fun r => (0 <= r < 1)%R) u ->
  dropout_mask_of 1 u = replicate (length u) true.
Proof.
  unfold dropout_mask_of. induction 1 as [|r u Hr _ IH]; [reflexivity|].
  simpl. rewrite floor_one_plus, cast_bool_one by exact Hr. by f_equal.
Qed.

Lemma retain_all {A : Type} (l : list A) :
  retain l (replicate (length l) true) = l.
Proof. induction l as [|a l IH]; [reflexivity|]. simpl. by f_equal. Qed.

Lemma sparse_scale_one (x : SparseTensor) : sparse_scale x (1 / 1) = x.
Proof.
  destruct x as [es sh]. unfold sparse_scale. simpl. f_equal.
  induction es as [|[ik v] es IH]; [reflexivity|].
  simpl. rewrite IH. unfold entry_val. simpl.
  replace (v * (1 / 1))%R with v by field. reflexivity.
Qed.

Lemma sparse_retain_within (x : SparseTensor) (mask : list bool) :
  (length mask <= length (entries x))%nat ->
  sparse_retain x mask
  = Some (mkSparse (retain (entries x) mask) (dense_shape x)).
Proof. intros H. unfold sparse_retain. by rewrite drop_ge. Qed.

Lemma sparse_retain_Some (x out : SparseTensor) (mask : list bool) :
  sparse_retain x mask = Some out ->
  out = mkSparse (retain (entries x) mask) (dense_shape x).
Proof.
  unfold sparse_retain. destruct (existsb _ _); [discriminate|].
  by intros [= <-].
Qed.

Lemma reciprocal_nonzero (keep_prob : scalar) :
  scalar_value keep_prob <> 0%R ->
  reciprocal keep_prob = Some (1 / scalar_value keep_prob)%R.
Proof.
  destruct keep_prob as [r|r]; simpl; [|reflexivity].
  intros H. destruct (Req_dec_T r 0); [contradiction|reflexivity].
Qed.

Lemma reciprocal_Some (keep_prob : scalar) (c : R) :
  reciprocal keep_prob = Some c -> c = (1 / scalar_value keep_prob)%R.
Proof.
  destruct keep_prob as [r|r]; simpl.
  - destruct (Req_dec_T r 0); [discriminate|]. by intros [= <-].
  - by intros [= <-].
Qed.

Lemma length_dropout_mask_of (keep_prob : R) (u : list R) :
  length (dropout_mask_of keep_prob u) = length u.
Proof. unfold dropout_mask_of. by rewrite !length_map. Qed.

Lemma sparse_dropout_Some (x out : SparseTensor) (keep_prob : scalar)
    (u : list R) :
  sparse_dropout x keep_prob u = Some out ->
  entries out
  = map (fun e => (fst e, (entry_val e * (1 / scalar_value keep_prob))%R))
        (retain (entries x) (dropout_mask_of (scalar_value keep_prob) u))
  /\ dense_shape out = dense_shape x.
Proof.
  unfold sparse_dropout. fold (dropout_mask_of (scalar_value keep_prob) u).
  intros H.
  destruct (sparse_retain x _) as [pre|] eqn:Hpre; simpl in H; [|discriminate].
  destruct (reciprocal keep_prob) as [c|] eqn:Hc; simpl in H; [|discriminate].
  injection H as <-. apply sparse_retain_Some in Hpre as ->.
  apply reciprocal_Some in Hc as ->. split; reflexivity.
Qed.

Lemma sparse_dropout_within (x : SparseTensor) (keep_prob : scalar)
    (u : list R) :
  scalar_value keep_prob <> 0%R ->
  (length u <= length (entries x))%nat ->
  sparse_dropout x keep_prob u
  = Some (sparse_scale
            (mkSparse (retain (entries x)
                              (dropout_mask_of (scalar_value keep_prob) u))
                      (dense_shape x))
            (1 / scalar_value keep_prob)).
Proof.
  intros Hk Hu. unfold sparse_dropout.
  fold (dropout_mask_of (scalar_value keep_prob) u).
  rewrite sparse_retain_within by (by rewrite length_dropout_mask_of).
  simpl. rewrite (reciprocal_nonzero _ Hk). reflexivity.
Qed.

Lemma sparse_dropout_one (x : SparseTensor) (keep_prob : scalar) (u : list R) :
  scalar_value keep_prob = 1%R ->
  length u = length (entries x) ->
  Forall (fun r => (0 <= r < 1)%R) u ->
  sparse_dropout x keep_prob u = Some x.
Proof.
  intros Hk Hlen Hu.
  rewrite sparse_dropout_within by (rewrite ?Hk; first [lra | lia]).
  rewrite Hk, dropout_mask_keep_all by exact Hu.
  rewrite Hlen, retain_all. f_equal.
  transitivity (sparse_scale x (1 / 1)); [by destruct x|].
  apply sparse_scale_one.
Qed.

(** C7. For a nonzero [keep_prob] and at most one sample per stored entry,
    [sparse_dropout] returns a result: the entries selected by the mask
    [floor(keep_prob + u)], each with its value multiplied by
    [1 / keep_prob], under the same dense shape; whatever it returns for a
    nonzero [keep_prob] has this form.  With [keep_prob = 1] and one uniform sample in [[0, 1)] per stored
    entry, the mask keeps every entry ([floor(1 + u) = 1]) and the result is
    [x] itself. *)
Theorem sparse_dropout_rescales_and_keep_prob_one_is_noop :
  (forall (x : SparseTensor) (keep_prob : scalar) (u : list R),
      scalar_value keep_prob <> 0%R ->
      (length u <= length (entries x))%nat ->
      exists out,
        sparse_dropout x keep_prob u = Some out /\
        entries out
        = map (fun e => (fst e, (entry_val e * (1 / scalar_value keep_prob))%R))
              (retain (entries x) (dropout_mask_of (scalar_value keep_prob) u))
        /\ dense_shape out = dense_shape x)
  /\
  (forall (x out : SparseTensor) (keep_prob : scalar) (u : list R),
      scalar_value keep_prob <> 0%R ->
      sparse_dropout x keep_prob u = Some out ->
      entries out
      = map (fun e => (fst e, (entry_val e * (1 / scalar_value keep_prob))%R))
            (retain (entries x) (dropout_mask_of (scalar_value keep_prob) u))
      /\ dense_shape out = dense_shape x)
  /\
  (forall (x : SparseTensor) (keep_prob : scalar) (u : list R),
      scalar_value keep_prob = 1%R ->
      length u = length (entries x) ->
      Forall (fun r => (0 <= r < 1)%R) u ->
      Forall (fun r => floor (1 + r) = 1%R) u
      /\ dropout_mask_of 1 u = replicate (length (entries x)) true
      /\ sparse_dropout x keep_prob u = Some x).
Proof.
  split; [|split].
  - intros x kp u Hk Hu. eexists. split.
    + apply (sparse_dropout_within x kp u Hk Hu).
    + split; reflexivity.
  - intros x out kp u _ H. by apply sparse_dropout_Some.
  - intros x kp u Hk Hlen Hu. split; [|split].
    + eapply Forall_impl; [exact Hu|]. intros r Hr. by apply floor_one_plus.
    + rewrite <- Hlen. by apply dropout_mask_keep_all.
    + by apply sparse_dropout_one.
Qed.

Lemma sparse_dropout_rescales_and_keep_prob_one_is_noop_witness :
  (exists out,
      sparse_dropout sparse_example (ScalarTensor (1 / 2)) [(1 / 4)%R; (3 / 4)%R]
      = Some out /\
      entries out
      = map (fun e => (fst e, (entry_val e
                               * (1 / scalar_value (ScalarTensor (1 / 2))))%R))
            (retain (entries sparse_example)
                    (dropout_mask_of (scalar_value (ScalarTensor (1 / 2)))
                                     [(1 / 4)%R; (3 / 4)%R]))
      /\ dense_shape out = dense_shape sparse_example)
  /\ sparse_dropout sparse_example (PyFloat 1) [(1 / 4)%R; (3 / 4)%R]
     = Some sparse_example.
Proof.
  destruct sparse_dropout_rescales_and_keep_prob_one_is_noop
    as (Hres & _ & Hone).
  split.
  - apply (Hres sparse_example (ScalarTensor (1 / 2)) [(1 / 4)%R; (3 / 4)%R]).
    + simpl. lra.
    + simpl. lia.
  - apply (Hone sparse_example (PyFloat 1) [(1 / 4)%R; (3 / 4)%R]);
      [reflexivity|reflexivity|].
    repeat constructor; lra.
Defined.

(** With [keep_prob = 1/2] and samples [1/4] and [3/4], the first entry is
    dropped and the second kept with its value doubled. *)
Example sparse_dropout_half :
  sparse_dropout sparse_example (ScalarTensor (1 / 2)) [(1 / 4)%R; (3 / 4)%R]
  = Some (mkSparse [((1%Z, 0%Z), (-3 * (1 / (1 / 2)))%R)] (2%nat, 2%nat)).
Proof.
  rewrite sparse_dropout_within by (simpl; first [lra | lia]).
  unfold dropout_mask_of, sparse_scale, floor. simpl.
  rewrite <- (Int_part_spec (1 / 2 + 1 / 4) 0%Z) by (simpl; lra).
  rewrite <- (Int_part_spec (1 / 2 + 3 / 4) 1%Z) by (simpl; lra).
  unfold cast_bool.
  destruct (Req_dec_T 0 0) as [_|H]; [|contradiction].
  destruct (Req_dec_T 1 0) as [H|_]; [lra|]. reflexivity.
Qed.

(** ** Sparse and dense products *)

Lemma Rsum_map_plus {A : Type} (f g : A -> R) (l : list A) :
  Rsum (map (fun a => (f a + g a)%R) l) = (Rsum (map f l) + Rsum (map g l))%R.
Proof. induction l as [|a l IH]; simpl; [lra|]. rewrite IH. lra. Qed.

Lemma Rsum_map_ext_in {A : Type} (f g : A -> R) (l : list A) :
  (forall a, In a l -> f a = g a) -> Rsum (map f l) = Rsum (map g l).
Proof. intros H. f_equal. by apply map_ext_in. Qed.

(** A sum that selects the single index [c] of a range. *)
Lemma Rsum_select (c : Z) (f : nat -> R) (n : nat) :
  forall start : nat,
    (Z.of_nat start <= c < Z.of_nat (start + n))%Z ->
    Rsum (map (fun k => if (c =? Z.of_nat k)%Z then f k else 0%R) (seq start n))
    = f (Z.to_nat c).
Proof.
  induction n as [|n IH]; intros start Hc; [lia|].
  simpl. destruct (Z.eqb_spec c (Z.of_nat start)) as [->|Hne].
  - rewrite Nat2Z.id.
    rewrite (Rsum_map_ext_in _ (fun _ => 0%R)).
    + assert (Hz : forall l : list nat, Rsum (map (fun _ => 0%R) l) = 0%R).
      { induction l as [|a l IHl]; simpl; [reflexivity|]. rewrite IHl. lra. }
      rewrite Hz. lra.
    + intros k Hk. apply in_seq in Hk.
      destruct (Z.eqb_spec (Z.of_nat start) (Z.of_nat k)); [lia|reflexivity].
  - rewrite IH by lia. lra.
Qed.

Lemma get2_build2 (r c : nat) (f : nat -> nat -> R) (i j : nat) :
  (i < r)%nat -> (j < c)%nat -> get2 (build2 r c f) i j = f i j.
Proof.
  intros Hi Hj. unfold get2, build2. simpl.
  rewrite (nth_indep _ [] (map (fun j => f 0%nat j) (seq 0 c)))
    by (rewrite length_map, length_seq; exact Hi).
  rewrite (map_nth (fun i => map (fun j => f i j) (seq 0 c)) (seq 0 r) 0%nat i).
  rewrite seq_nth by exact Hi. simpl.
  rewrite (nth_indep _ 0%R (f i 0%nat))
    by (rewrite length_map, length_seq; exact Hj).
  rewrite (map_nth (fun j => f i j) (seq 0 c) 0%nat j).
  rewrite seq_nth by exact Hj. reflexivity.
Qed.

Lemma build2_ext (r c : nat) (f g : nat -> nat -> R) :
  (forall i j, (i < r)%nat -> (j < c)%nat -> f i j = g i j) ->
  build2 r c f = build2 r c g.
Proof.
  intros H. unfold build2. f_equal.
  apply map_ext_in. intros i Hi. apply in_seq in Hi.
  apply map_ext_in. intros j Hj. apply in_seq in Hj.
  apply H; lia.
Qed.

Lemma index_lt_trans (a b c : Z * Z * R) :
  index_lt a b = true -> index_lt b c = true -> index_lt a c = true.
Proof. unfold index_lt. intros H1 H2. lia. Qed.

Lemma strictly_ordered_head (e : Z * Z * R) (rest : list (Z * Z * R)) :
  strictly_ordered (e :: rest) = true ->
  Forall (fun e' => index_lt e e' = true) rest /\ strictly_ordered rest = true.
Proof.
  revert e. induction rest as [|b rest IH]; intros e H; [by split|].
  simpl in H. apply andb_true_iff in H as [Hab Hs].
  destruct (IH b Hs) as [Hall _]. split; [|exact Hs].
  constructor; [exact Hab|].
  eapply Forall_impl; [exact Hall|]. intros c Hc. simpl in Hc.
  by apply (index_lt_trans e b c).
Qed.

Lemma stored_at_absent (e : Z * Z * R) (rest : list (Z * Z * R)) :
  Forall (fun e' => index_lt e e' = true) rest ->
  stored_at rest (entry_row e) (entry_col e) = 0%R.
Proof.
  induction 1 as [|b rest Hb _ IH]; [reflexivity|].
  simpl. rewrite IH. unfold index_lt in Hb.
  destruct ((entry_row b =? entry_row e)%Z && (entry_col b =? entry_col e)%Z)
    eqn:E; [lia|reflexivity].
Qed.

(** Row [i] of the dense matrix times a column, entry by entry. *)
Lemma stored_at_row_sum (n : nat) (g : nat -> R) (i : Z) (es : list (Z * Z * R)) :
  forallb (fun e => in_range n (entry_col e)) es = true ->
  strictly_ordered es = true ->
  Rsum (map (fun k => (stored_at es i (Z.of_nat k) * g k)%R) (seq 0 n))
  = Rsum (map (fun e => if (entry_row e =? i)%Z
                        then (entry_val e * g (Z.to_nat (entry_col e)))%R
                        else 0%R) es).
Proof.
  induction es as [|e rest IH]; intros Hr Hs.
  - simpl. induction (seq 0 n) as [|k l IHl]; simpl; [reflexivity|].
    rewrite IHl. lra.
  - simpl in Hr. apply andb_true_iff in Hr as [He Hr].
    destruct (strictly_ordered_head _ _ Hs) as [Hhead Hs'].
    specialize (IH Hr Hs'). cbn [map Rsum fold_right].
    fold (Rsum (map (fun e0 => if (entry_row e0 =? i)%Z
                               then (entry_val e0 * g (Z.to_nat (entry_col e0)))%R
                               else 0%R) rest)).
    rewrite <- IH. clear IH.
    destruct (Z.eqb_spec (entry_row e) i) as [<-|Hne].
    + rewrite <- (Rsum_select (entry_col e)
                    (fun k => (entry_val e * g k)%R) n 0%nat)
        by (unfold in_range in He; lia).
      rewrite <- Rsum_map_plus. apply Rsum_map_ext_in. intros k _.
      cbn [stored_at]. rewrite Z.eqb_refl. simpl.
      destruct (Z.eqb_spec (entry_col e) (Z.of_nat k)) as [Hk|Hk].
      * rewrite <- Hk, (stored_at_absent e rest Hhead). lra.
      * lra.
    + rewrite <- (Rplus_0_l (Rsum _)) at 1. f_equal.
      apply Rsum_map_ext_in. intros k _. cbn [stored_at].
      destruct (Z.eqb_spec (entry_row e) i); [contradiction|reflexivity].
Qed.

Lemma forallb_and_r {A : Type} (p q : A -> bool) (l : list A) :
  forallb (fun a => p a && q a) l = true -> forallb q l = true.
Proof.
  induction l as [|a l IH]; [reflexivity|]. simpl. intros H.
  apply andb_true_iff in H as [H1 H2]. apply andb_true_iff in H1 as [_ H1].
  rewrite H1. simpl. by apply IH.
Qed.

Lemma Rsum_const_zero {A : Type} (l : list A) :
  Rsum (map (fun _ => 0%R) l) = 0%R.
Proof. induction l as [|a l IH]; simpl; [reflexivity|]. rewrite IH. lra. Qed.

Lemma summed_at_cons (e : Z * Z * R) (rest : list (Z * Z * R)) (i k : Z) :
  summed_at (e :: rest) i k
  = ((if (entry_row e =? i)%Z && (entry_col e =? k)%Z then entry_val e else 0)
     + summed_at rest i k)%R.
Proof. reflexivity. Qed.

(** Row [i] of [dense_of] times a column, entry by entry; the entries may
    come in any order and may repeat an index. *)
Lemma summed_at_row_sum (n : nat) (g : nat -> R) (i : Z) (es : list (Z * Z * R)) :
  forallb (fun e => in_range n (entry_col e)) es = true ->
  Rsum (map (fun k => (summed_at es i (Z.of_nat k) * g k)%R) (seq 0 n))
  = Rsum (map (fun e => if (entry_row e =? i)%Z
                        then (entry_val e * g (Z.to_nat (entry_col e)))%R
                        else 0%R) es).
Proof.
  induction es as [|e rest IH]; intros Hr.
  - simpl. rewrite (Rsum_map_ext_in _ (fun _ => 0%R)).
    + apply Rsum_const_zero.
    + intros k _. unfold summed_at. simpl. lra.
  - simpl in Hr. apply andb_true_iff in Hr as [He Hr].
    specialize (IH Hr). cbn [map Rsum fold_right].
    fold (Rsum (map (fun e0 => if (entry_row e0 =? i)%Z
                               then (entry_val e0 * g (Z.to_nat (entry_col e0)))%R
                               else 0%R) rest)).
    rewrite <- IH. clear IH.
    rewrite (Rsum_map_ext_in _
               (fun k => ((if (entry_row e =? i)%Z && (entry_col e =? Z.of_nat k)%Z
                           then entry_val e * g k else 0)
                          + summed_at rest i (Z.of_nat k) * g k)%R)).
    + rewrite Rsum_map_plus. f_equal.
      destruct (Z.eqb_spec (entry_row e) i) as [_|_]; simpl.
      * apply (Rsum_select (entry_col e) (fun k => (entry_val e * g k)%R) n 0%nat).
        unfold in_range in He. lia.
      * apply Rsum_const_zero.
    + intros k _. rewrite summed_at_cons.
      destruct ((entry_row e =? i)%Z && (entry_col e =? Z.of_nat k)%Z); lra.
Qed.

Lemma summed_at_absent (e : Z * Z * R) (rest : list (Z * Z * R)) :
  Forall (fun e' => index_lt e e' = true) rest ->
  summed_at rest (entry_row e) (entry_col e) = 0%R.
Proof.
  induction 1 as [|b rest Hb _ IH]; [reflexivity|].
  rewrite summed_at_cons, IH. unfold index_lt in Hb.
  destruct ((entry_row b =? entry_row e)%Z && (entry_col b =? entry_col e)%Z)
    eqn:E; [lia|lra].
Qed.

(** Without repeated indices the sum at a position is the value stored
    there. *)
Lemma stored_at_summed_at (es : list (Z * Z * R)) (i k : Z) :
  strictly_ordered es = true -> stored_at es i k = summed_at es i k.
Proof.
  induction es as [|e rest IH]; intros Hs; [reflexivity|].
  destruct (strictly_ordered_head _ _ Hs) as [Hhead Hs'].
  rewrite summed_at_cons. cbn [stored_at]. rewrite <- (IH Hs').
  destruct ((entry_row e =? i)%Z && (entry_col e =? k)%Z) eqn:E; [|lra].
  apply andb_true_iff in E as [E1 E2].
  apply Z.eqb_eq in E1, E2. subst i k.
  rewrite (IH Hs'), (summed_at_absent e rest Hhead). lra.
Qed.

Lemma densify_dense_of (x : SparseTensor) (d : Tensor2) :
  densify x = Some d -> d = dense_of x /\ in_bounds x = true.
Proof.
  unfold densify, dense_of, in_bounds.
  destruct (dense_shape x) as [m n]. simpl.
  destruct (forallb _ (entries x)) eqn:Hrange; simpl; [|discriminate].
  destruct (strictly_ordered (entries x)) eqn:Hord; [|discriminate].
  intros [= <-]. split; [|reflexivity].
  apply build2_ext. intros i k _ _. by apply stored_at_summed_at.
Qed.

Lemma sparse_tensor_dense_matmul_dense_of (x : SparseTensor) (y : Tensor2) :
  in_bounds x = true ->
  sparse_tensor_dense_matmul x y = matmul (dense_of x) y.
Proof.
  unfold in_bounds, dense_of, sparse_tensor_dense_matmul, matmul.
  destruct (dense_shape x) as [m n]. simpl. intros Hrange. rewrite Hrange.
  destruct (n =? dim0 y)%nat; [|reflexivity].
  f_equal. apply build2_ext. intros i j Hi Hj.
  pose proof (forallb_and_r _ _ _ Hrange) as Hcols.
  rewrite <- (summed_at_row_sum n (fun k => get2 y k j) (Z.of_nat i) (entries x)
                Hcols).
  apply Rsum_map_ext_in. intros k Hk. apply in_seq in Hk.
  rewrite get2_build2 by lia. reflexivity.
Qed.

(** C8. For a sparse tensor [x] whose stored indices lie inside its dense
    shape (in any order) and any dense [y], the sparse product
    [dot(x, y, sparse=True)] and the dense product of the matrix [x] denotes
    agree.  When the shapes are compatible both produce the same matrix, of
    shape [[rows(x), cols(y)]], whose entry [(i, j)] is the sum over [k] of
    [x[i, k] * y[k, j]]; and the matrix [x] denotes is the one [densify]
    returns whenever [densify] accepts [x]. *)
Theorem dot_sparse_agrees_with_dense (x : SparseTensor) (y : Tensor2) :
  in_bounds x = true ->
  dot (SparseT x) y true = dot (DenseT (dense_of x)) y false
  /\
  (snd (dense_shape x) = dim0 y ->
   exists out,
     dot (SparseT x) y true = Some out /\
     dot (DenseT (dense_of x)) y false = Some out /\
     dim0 out = fst (dense_shape x) /\ dim1 out = dim1 y /\
     forall i j, (i < fst (dense_shape x))%nat -> (j < dim1 y)%nat ->
       get2 out i j
       = Rsum (map (fun k => (get2 (dense_of x) i k * get2 y k j)%R)
                   (seq 0 (dim0 y))))
  /\
  (forall d, densify x = Some d -> d = dense_of x).
Proof.
  intros Hb.
  assert (Heq : dot (SparseT x) y true = dot (DenseT (dense_of x)) y false).
  { unfold dot. by apply sparse_tensor_dense_matmul_dense_of. }
  split; [exact Heq|]. split.
  - intros Hshape. rewrite Heq. unfold dot, matmul, dense_of.
    destruct (dense_shape x) as [m n] eqn:E. simpl in *.
    rewrite Hshape, Nat.eqb_refl. eexists. split; [reflexivity|].
    split; [reflexivity|]. split; [reflexivity|]. split; [reflexivity|].
    intros i j Hi Hj. by rewrite get2_build2.
  - intros d Hd. by apply densify_dense_of in Hd as [-> _].
Qed.

Lemma dot_sparse_agrees_with_dense_witness :
  dot (SparseT sparse_unordered_example) y_example true
  = dot (DenseT (dense_of sparse_unordered_example)) y_example false
  /\
  exists out,
    dot (SparseT sparse_unordered_example) y_example true = Some out /\
    dot (DenseT (dense_of sparse_unordered_example)) y_example false = Some out /\
    dim0 out = fst (dense_shape sparse_unordered_example) /\
    dim1 out = dim1 y_example /\
    forall i j, (i < fst (dense_shape sparse_unordered_example))%nat ->
                (j < dim1 y_example)%nat ->
      get2 out i j
      = Rsum (map (fun k => (get2 (dense_of sparse_unordered_example) i k
                             * get2 y_example k j)%R)
                  (seq 0 (dim0 y_example))).
Proof.
  destruct (dot_sparse_agrees_with_dense sparse_unordered_example y_example
              eq_refl) as (Heq & Hout & _).
  split; [exact Heq|]. apply Hout. reflexivity.
Defined.

(** The product of the example: rows [[0, 2]] and [[-3, 0]] times the column
    [[5], [7]]. *)
Example dot_sparse_example :
  exists out,
    dot (SparseT sparse_unordered_example) y_example true = Some out
    /\ get2 out 0 0 = 14%R /\ get2 out 1 0 = (-15)%R.
Proof.
  eexists. split; [reflexivity|]. split; vm_compute; lra.
Qed.

(** ** GraphConvolution *)

Lemma well_shaped_build2 (r c : nat) (f : nat -> nat -> R) :
  well_shaped (build2 r c f).
Proof.
  unfold well_shaped, build2. simpl. split.
  - by rewrite length_map, length_seq.
  - apply Forall_forall. intros row Hrow.
    apply list_elem_of_In, in_map_iff in Hrow as (i & <- & _).
    by rewrite length_map, length_seq.
Qed.

Lemma matmul_shape (x y out : Tensor2) :
  matmul x y = Some out ->
  dim0 out = dim0 x /\ dim1 out = dim1 y /\ well_shaped out.
Proof.
  unfold matmul. destruct (_ =? _)%nat; [|discriminate].
  intros [= <-]. repeat split; try apply well_shaped_build2.
Qed.

Lemma add_bias_shape (output out : Tensor2) (b : list R) :
  length b = dim1 output ->
  add_bias output b = Some out ->
  dim0 out = dim0 output /\ dim1 out = dim1 output /\ well_shaped out.
Proof.
  intros Hb. unfold add_bias. rewrite Hb, Nat.eqb_refl.
  intros [= <-]. repeat split; try apply well_shaped_build2.
Qed.

(** C3. With [featureless=True] and weights [W], the layer returns
    [act(S·W)], with the bias added before the activation when [bias=True];
    the result is the same for every feature input and every dropout
    sample. *)
Theorem GraphConvolution_featureless_ignores_input
    (self : GraphConvolution) (W : Tensor2) :
  featureless self = true ->
  lookup_var2 (vars (gc_layer self)) "weights" = Some W ->
  (forall (X : Tensor2) (u : nat -> nat -> R),
      GraphConvolution_call self X u = featureless_output self W)
  /\
  (forall (X X' : Tensor2) (u u' : nat -> nat -> R),
      GraphConvolution_call self X u = GraphConvolution_call self X' u').
Proof.
  intros Hf HW.
  assert (H : forall X u, GraphConvolution_call self X u = featureless_output self W).
  { intros X u. unfold GraphConvolution_call, featureless_output.
    rewrite HW, Hf. simpl.
    destruct (matmul (support self) W) as [sw|]; simpl; [|reflexivity].
    destruct (bias self); simpl; [|reflexivity].
    destruct (lookup_var1 _ _) as [b|]; simpl; [|reflexivity].
    destruct (add_bias sw b); reflexivity. }
  split; [exact H|]. intros X X' u u'. by rewrite !H.
Qed.

Lemma dropped_shape (self : GraphConvolution) (X : Tensor2) (u : nat -> nat -> R) :
  dim0 (dropped self X u) = dim0 X /\ dim1 (dropped self X u) = dim1 X.
Proof. unfold dropped. destruct (gc_dropout self); by split. Qed.

Lemma relu_shape_preserving : shape_preserving relu.
Proof.
  intros t. unfold relu, well_shaped. simpl. repeat split.
  - rewrite length_map. tauto.
  - destruct H as [_ H]. apply Forall_forall. intros r Hr.
    apply list_elem_of_In, in_map_iff in Hr as (r0 & <- & Hr0).
    rewrite length_map. rewrite Forall_forall in H.
    apply H. by apply list_elem_of_In.
Qed.

(** C5. For a layer whose variables have the constructor's shapes, an input
    [X] with [input_dim] columns and any [input_dim]: every output the
    layer produces has shape [[rows(support), output_dim]]; an output is
    produced whenever the support's columns match the rows of what it
    multiplies; and two dropout samples with the same mask
    [floor(keep_prob + u)] give the same output. *)
Theorem GraphConvolution_output_shape_and_determinism
    (self : GraphConvolution) (input_dim output_dim : nat) (X : Tensor2) :
  gc_shapes self input_dim output_dim ->
  dim1 X = input_dim ->
  (forall (u : nat -> nat -> R) (out : Tensor2),
      GraphConvolution_call self X u = Some out ->
      dim0 out = dim0 (support self) /\ dim1 out = output_dim /\ well_shaped out)
  /\
  (dim1 (support self) = (if featureless self then input_dim else dim0 X) ->
   forall u, is_Some (GraphConvolution_call self X u))
  /\
  (forall u u' : nat -> nat -> R,
      (forall d i j, gc_dropout self = Some d ->
                     floor (1 - d + u i j) = floor (1 - d + u' i j)) ->
      GraphConvolution_call self X u = GraphConvolution_call self X u').
Proof.
  intros ((W & HW & HW0 & HW1) & Hbias & Hact) HX.
  assert (Hcall : forall u, GraphConvolution_call self X u
    = (pre_sup ← (if negb (featureless self)
                  then matmul (dropped self X u) W else Some W);
       support0 ← matmul (support self) pre_sup;
       output ← (if bias self then
                   b ← lookup_var1 (vars (gc_layer self)) "bias";
                   add_bias support0 b
                 else Some support0);
       Some (gc_act self output))).
  { intros u. unfold GraphConvolution_call. fold (dropped self X u).
    rewrite HW. reflexivity. }
  split; [|split].
  - intros u out. rewrite Hcall. intros H.
    destruct (if negb (featureless self) then _ else _) as [pre|] eqn:Hpre;
      simpl in H; [|discriminate].
    assert (Hpre1 : dim1 pre = output_dim).
    { destruct (featureless self); simpl in Hpre.
      - by injection Hpre as <-.
      - apply matmul_shape in Hpre as (_ & -> & _). exact HW1. }
    destruct (matmul (support self) pre) as [sw|] eqn:Hsw; simpl in H;
      [|discriminate].
    apply matmul_shape in Hsw as (Hs0 & Hs1 & Hswf).
    destruct (Hact sw) as (Ha0 & Ha1 & Hawf).
    destruct (bias self) eqn:Hb; simpl in H.
    + destruct (Hbias eq_refl) as (b & Hlb & Hlen). rewrite Hlb in H. simpl in H.
      destruct (add_bias sw b) as [o|] eqn:Ho; simpl in H; [|discriminate].
      apply add_bias_shape in Ho as (Ho0 & Ho1 & Howf); [|congruence].
      injection H as <-. destruct (Hact o) as (Hb0 & Hb1 & Hbwf).
      split; [congruence|]. split; [congruence|auto].
    + injection H as <-. split; [congruence|]. split; [congruence|auto].
  - intros HS u. rewrite Hcall.
    destruct (dropped_shape self X u) as [Hd0 Hd1].
    assert (Hpre : exists pre,
               (if negb (featureless self)
                then matmul (dropped self X u) W else Some W) = Some pre /\
               dim0 pre = dim1 (support self) /\ dim1 pre = output_dim).
    { destruct (featureless self); simpl.
      - exists W. repeat split; congruence.
      - unfold matmul. rewrite Hd1, HX, HW0, Nat.eqb_refl.
        eexists. split; [reflexivity|]. simpl. split; congruence. }
    destruct Hpre as (pre & -> & Hp0 & Hp1). simpl.
    unfold matmul at 1. rewrite Hp0, Nat.eqb_refl. simpl.
    destruct (bias self) eqn:Hb; simpl; [|eauto].
    destruct (Hbias eq_refl) as (b & -> & Hlen). simpl.
    unfold add_bias. simpl. rewrite Hlen, Hp1, Nat.eqb_refl. simpl. eauto.
  - intros u u' Hmask. rewrite !Hcall.
    assert (Hd : dropped self X u = dropped self X u').
    { unfold dropped. destruct (gc_dropout self) as [d|] eqn:Ed; [|reflexivity].
      unfold dropout. apply build2_ext. intros i j _ _.
      by rewrite (Hmask d i j eq_refl). }
    by rewrite Hd.
Qed.

Lemma GraphConvolution_featureless_ignores_input_witness :
  GraphConvolution_call (gc_example true) X_example (fun _ _ => (1 / 4)%R)
  = featureless_output (gc_example true) W_example
  /\ GraphConvolution_call (gc_example true) X_example (fun _ _ => (1 / 4)%R)
     = GraphConvolution_call (gc_example true) S_example (fun _ _ => (3 / 4)%R).
Proof.
  destruct (GraphConvolution_featureless_ignores_input (gc_example true) W_example)
    as [H1 H2]; [reflexivity|reflexivity|].
  split; [apply H1|apply H2].
Defined.

Lemma gc_example_shapes (f : bool) : gc_shapes (gc_example f) 2 1.
Proof.
  split; [|split].
  - exists W_example. by repeat split.
  - intros _. exists [0%R]. by split.
  - apply relu_shape_preserving.
Qed.

Lemma GraphConvolution_output_shape_and_determinism_witness :
  is_Some (GraphConvolution_call (gc_example false) X_example (fun _ _ => (1 / 4)%R))
  /\ forall out,
      GraphConvolution_call (gc_example false) X_example (fun _ _ => (1 / 4)%R)
      = Some out ->
      dim0 out = 2%nat /\ dim1 out = 1%nat /\ well_shaped out.
Proof.
  destruct (GraphConvolution_output_shape_and_determinism
              (gc_example false) 2 1 X_example (gc_example_shapes false) eq_refl)
    as (Hshape & Hsome & _).
  split.
  - apply Hsome. reflexivity.
  - intros out Hout. exact (Hshape _ out Hout).
Defined.

(** ** PathEmbedding: normalisation of the link embeddings *)

Lemma epsilon_bounds : (0 < epsilon <= 1)%R.
Proof.
  unfold epsilon.
  assert (H : (1 <= 10 ^ 12)%R) by (apply pow_R1_Rle; lra).
  split.
  - apply Rinv_0_lt_compat. lra.
  - rewrite <- Rinv_1. apply Rinv_le_contravar; lra.
Qed.

Lemma nth_map_default {A B : Type} (f : A -> B) (l : list A) (d : A) (d' : B)
    (j : nat) :
  f d = d' -> nth j (map f l) d' = f (nth j l d).
Proof. intros <-. apply map_nth. Qed.

Lemma l2_normalize_entry (x : Tensor2) (i j : nat) :
  get2 (l2_normalize x) i j
  = (get2 x i j / sqrt (Rmax (sum_squares x) epsilon))%R.
Proof.
  unfold get2, l2_normalize, sum_squares. simpl.
  rewrite (nth_map_default _ (rows x) [] [] i) by reflexivity.
  rewrite (nth_map_default _ _ 0%R 0%R j) by (apply Rmult_0_l).
  reflexivity.
Qed.

Lemma Rsum_map_scale {A : Type} (f : A -> R) (c : R) (l : list A) :
  Rsum (map (fun a => (f a * c)%R) l) = (Rsum (map f l) * c)%R.
Proof. induction l as [|a l IH]; simpl; [lra|]. rewrite IH. lra. Qed.

Lemma sum_squares_nonneg (x : Tensor2) : (0 <= sum_squares x)%R.
Proof.
  unfold sum_squares. induction (rows x) as [|r l IH]; simpl; [lra|].
  assert (0 <= Rsum (map (fun v => v * v) r))%R; [|lra].
  clear. induction r as [|v r IH]; simpl; [lra|]. nra.
Qed.

Lemma sum_squares_l2_normalize (x : Tensor2) :
  (epsilon <= sum_squares x)%R -> sum_squares (l2_normalize x) = 1%R.
Proof.
  intros Hs. pose proof epsilon_bounds as [He _].
  unfold l2_normalize. rewrite Rmax_left by exact Hs.
  fold (sum_squares x). set (s := sum_squares x) in *.
  unfold sum_squares at 1. simpl. rewrite map_map.
  rewrite (Rsum_map_ext_in _
             (fun r => (Rsum (map (fun v => v * v) r) * (/ sqrt s * / sqrt s))%R)).
  - rewrite Rsum_map_scale. fold (sum_squares x). fold s.
    assert (Hq : (sqrt s * sqrt s = s)%R) by (apply sqrt_sqrt; lra).
    assert (Hp : (0 < sqrt s)%R) by (apply sqrt_lt_R0; lra).
    rewrite <- Hq at 1. field. lra.
  - intros r _. rewrite map_map, <- Rsum_map_scale.
    apply Rsum_map_ext_in. intros v _. ring.
Qed.

(** C1, as the code has it.  [tf.math.l2_normalize] is called without an
    axis, so the whole tensor is divided by one number: every entry of the
    normalised tensor is the input entry divided by
    [sqrt(max(sum of the squares of all entries, 1e-12))]; the shape is kept;
    when that sum is at least [1e-12] the squares of the result sum to 1;
    and the rest of the forward pass sees the input only through the
    normalised tensor. *)
Theorem PathEmbedding_normalizes_whole_tensor :
  (forall (x : Tensor2) (i j : nat),
      get2 (l2_normalize x) i j
      = (get2 x i j / sqrt (Rmax (sum_squares x) epsilon))%R)
  /\ (forall x : Tensor2,
         dim0 (l2_normalize x) = dim0 x /\ dim1 (l2_normalize x) = dim1 x)
  /\ (forall x : Tensor2,
         (epsilon <= sum_squares x)%R -> sum_squares (l2_normalize x) = 1%R)
  /\ (forall (self : PathEmbedding) (x x' : Tensor2),
         l2_normalize x = l2_normalize x' ->
         PathEmbedding_call self x = PathEmbedding_call self x').
Proof.
  split; [exact l2_normalize_entry|]. split; [by split|].
  split; [exact sum_squares_l2_normalize|].
  intros self x x' H. unfold PathEmbedding_call. cbv zeta. by rewrite H.
Qed.

Lemma PathEmbedding_normalizes_whole_tensor_witness :
  sum_squares (l2_normalize links_example) = 1%R.
Proof.
  destruct PathEmbedding_normalizes_whole_tensor as (_ & _ & H & _).
  apply (H links_example).
  pose proof epsilon_bounds. unfold sum_squares, links_example. simpl. lra.
Defined.

Lemma sqrt_25 : sqrt 25 = 5%R.
Proof. replace 25%R with (5 * 5)%R by lra. apply sqrt_square. lra. Qed.

Lemma sqrt_9 : sqrt 9 = 3%R.
Proof. replace 9%R with (3 * 3)%R by lra. apply sqrt_square. lra. Qed.

(** C1, as stated, fails: for the two links [[3]] and [[4]] the code returns
    [3/5] for the first link, while dividing that row by its own norm
    gives [1]. *)
Lemma PathEmbedding_normalization_not_row_wise :
  get2 (l2_normalize links_example) 0 0 = (3 / 5)%R
  /\ get2 (l2_normalize_rows links_example) 0 0 = 1%R
  /\ l2_normalize links_example <> l2_normalize_rows links_example.
Proof.
  assert (H1 : get2 (l2_normalize links_example) 0 0 = (3 / 5)%R).
  { rewrite l2_normalize_entry. pose proof epsilon_bounds as [_ He].
    replace (sum_squares links_example) with 25%R
      by (unfold sum_squares, links_example; simpl; lra).
    rewrite Rmax_left by lra. rewrite sqrt_25. reflexivity. }
  assert (H2 : get2 (l2_normalize_rows links_example) 0 0 = 1%R).
  { unfold get2, l2_normalize_rows, links_example, row_norm. simpl.
    replace (3 * 3 + 0)%R with 9%R by lra. rewrite sqrt_9. field. }
  split; [exact H1|]. split; [exact H2|].
  intros H. rewrite H, H2 in H1. lra.
Qed.

(** ** PathEmbedding: the per-path lengths *)

Lemma segment_fold_cons (s : Z) (ids out : list Z) :
  segment_fold (s :: ids) out
  = segment_fold ids (alter (Z.add 1) (Z.to_nat s) out).
Proof. reflexivity. Qed.

Lemma segment_fold_length (ids : list Z) :
  forall out, length (segment_fold ids out) = length out.
Proof.
  induction ids as [|s ids IH]; intros out; [reflexivity|].
  rewrite segment_fold_cons, IH. apply length_alter.
Qed.

Lemma segment_fold_lookup (ids : list Z) (p : nat) :
  Forall (fun s => (0 <= s)%Z) ids ->
  forall out,
    segment_fold ids out !! p
    = (fun v => (v + count_steps (Z.of_nat p) ids)%Z) <$> out !! p.
Proof.
  induction 1 as [|s ids Hs _ IH]; intros out.
  - unfold segment_fold, count_steps. simpl.
    destruct (out !! p) as [v|]; simpl; [|reflexivity]. f_equal. lia.
  - rewrite segment_fold_cons, IH. unfold count_steps. simpl.
    destruct (Z.eqb_spec (Z.of_nat p) s) as [<-|Hne].
    + rewrite Nat2Z.id, list_lookup_alter_eq.
      destruct (out !! p) as [v|]; simpl; [|reflexivity]. f_equal. lia.
    + rewrite list_lookup_alter_ne by lia. reflexivity.
Qed.

Lemma Zsum_alter_add (d : Z) (l : list Z) :
  forall i, (i < length l)%nat -> Zsum (alter (Z.add d) i l) = (Zsum l + d)%Z.
Proof.
  induction l as [|a l IH]; intros i Hi; simpl in Hi; [lia|].
  destruct i as [|i].
  - change (Zsum (alter (Z.add d) 0 (a :: l))) with (d + a + Zsum l)%Z.
    simpl. lia.
  - change (Zsum (alter (Z.add d) (S i) (a :: l)))
      with (a + Zsum (alter (Z.add d) i l))%Z.
    rewrite (IH i) by lia. simpl. lia.
Qed.

Lemma segment_fold_sum (ids : list Z) :
  forall out,
    Forall (fun s => (Z.to_nat s < length out)%nat) ids ->
    Zsum (segment_fold ids out) = (Zsum out + Z.of_nat (length ids))%Z.
Proof.
  induction ids as [|s ids IH]; intros out Hin.
  - unfold segment_fold. simpl. lia.
  - inversion Hin as [|? ? Hs Hrest]; subst.
    rewrite segment_fold_cons, IH.
    + rewrite Zsum_alter_add by exact Hs. simpl length. lia.
    + rewrite length_alter. exact Hrest.
Qed.

Lemma nondecreasing_le_last (l : list Z) :
  nondecreasing l = true ->
  forall m, last l = Some m -> Forall (fun s => (s <= m)%Z) l.
Proof.
  induction l as [|a l IH]; intros Hs m Hm; [constructor|].
  destruct l as [|b l].
  - injection Hm as <-. repeat constructor. lia.
  - simpl in Hs. apply andb_true_iff in Hs as [Hab Hs].
    change (last (a :: b :: l)) with (last (b :: l)) in Hm.
    specialize (IH Hs m Hm). constructor; [|exact IH].
    inversion IH; subst. lia.
Qed.

Lemma Zsum_replicate_0 (n : nat) : Zsum (replicate n 0%Z) = 0%Z.
Proof. induction n as [|n IH]; simpl; [reflexivity|]. exact IH. Qed.

Lemma length_ones_like (l : list Z) : length (ones_like l) = length l.
Proof. unfold ones_like. apply length_map. Qed.

(** What [segment_sum] returns on [ones_like ids]. *)
Lemma segment_sum_ones (ids lens : list Z) :
  segment_sum (ones_like ids) ids = Some lens ->
  Forall (fun s => (0 <= s)%Z) ids /\ nondecreasing ids = true /\
  lens = segment_fold ids
           (replicate (match last ids with
                       | Some s => Z.to_nat (s + 1)
                       | None => 0%nat
                       end) 0%Z).
Proof.
  unfold segment_sum. intros H.
  destruct (_ =? _)%nat; simpl in H; [|discriminate].
  destruct (forallb _ ids) eqn:Hnn; simpl in H; [|discriminate].
  destruct (nondecreasing ids) eqn:Hs; [|discriminate].
  injection H as <-. split; [|by split].
  apply Forall_forall. intros s Hin.
  rewrite forallb_forall in Hnn. apply list_elem_of_In, Hnn in Hin. lia.
Qed.

Lemma lens_lookup_count (ids lens : list Z) (p : nat) :
  segment_sum (ones_like ids) ids = Some lens ->
  (p < length lens)%nat ->
  exists c, lens !! p = Some c /\ c = count_steps (Z.of_nat p) ids.
Proof.
  intros H Hp. apply segment_sum_ones in H as (Hnn & Hs & ->).
  rewrite segment_fold_length, length_replicate in Hp.
  rewrite segment_fold_lookup by exact Hnn.
  rewrite lookup_replicate_2 by exact Hp. simpl. eauto.
Qed.

(** C4. Whenever the layer's [idx] is accepted by [segment_sum] (which is
    the case exactly when it is non-negative and sorted), the length vector
    [lens] holds, at every path id [p] it covers, the number of steps with
    [idx[i] = p], and its entries sum to [len(idx)]. *)
Theorem PathEmbedding_lens_counts_steps (self : PathEmbedding) :
  (is_Some (segment_sum (ones_like (idx self)) (idx self))
   <-> forallb (fun s => (0 <=? s)%Z) (idx self) && nondecreasing (idx self) = true)
  /\
  (forall lens : list Z,
      segment_sum (ones_like (idx self)) (idx self) = Some lens ->
      (forall p : nat, (p < length lens)%nat ->
                       lens !! p = Some (count_steps (Z.of_nat p) (idx self)))
      /\ Zsum lens = Z.of_nat (length (idx self))).
Proof.
  split.
  - unfold segment_sum. rewrite length_ones_like, Nat.eqb_refl. simpl.
    destruct (forallb _ _ && nondecreasing _); split; intros H;
      try done; by destruct H.
  - intros lens H. apply segment_sum_ones in H as (Hnn & Hs & ->).
    set (n := match last (idx self) with
              | Some s => Z.to_nat (s + 1) | None => 0%nat end).
    split.
    + intros p Hp. rewrite segment_fold_length, length_replicate in Hp.
      rewrite segment_fold_lookup by exact Hnn.
      rewrite lookup_replicate_2 by exact Hp. reflexivity.
    + rewrite segment_fold_sum, Zsum_replicate_0; [lia|].
      rewrite length_replicate. subst n.
      destruct (last (idx self)) as [m|] eqn:Hm.
      * pose proof (nondecreasing_le_last _ Hs m Hm) as Hle.
        rewrite Forall_forall in Hnn, Hle. apply Forall_forall.
        intros s Hin. specialize (Hnn s Hin). specialize (Hle s Hin). lia.
      * apply last_None in Hm. rewrite Hm. constructor.
Qed.

Lemma PathEmbedding_lens_counts_steps_witness :
  segment_sum (ones_like (idx pe_example)) (idx pe_example) = Some [2%Z; 1%Z]
  /\ [2%Z; 1%Z] !! 1%nat = Some (count_steps 1 (idx pe_example))
  /\ Zsum [2%Z; 1%Z] = Z.of_nat (length (idx pe_example)).
Proof.
  assert (H : segment_sum (ones_like (idx pe_example)) (idx pe_example)
              = Some [2%Z; 1%Z]) by reflexivity.
  destruct (PathEmbedding_lens_counts_steps pe_example) as [_ Hlens].
  destruct (Hlens _ H) as [Hcount Hsum].
  split; [exact H|]. split; [|exact Hsum].
  apply (Hcount 1%nat). simpl. lia.
Defined.

(** ** PathEmbedding: the length of [lens] and the recurrent batch *)

Lemma reduce_max_sorted (l : list Z) :
  forall a, nondecreasing (a :: l) = true ->
            fold_left Z.max l a = default a (last l).
Proof.
  induction l as [|b l IH]; intros a H; [reflexivity|].
  simpl in H. apply andb_true_iff in H as [Hab Hs].
  simpl fold_left. rewrite Z.max_r by lia. rewrite (IH b Hs).
  destruct l as [|z l]; [reflexivity|].
  change (last (b :: z :: l)) with (last (z :: l)).
  destruct (last (z :: l)) eqn:E; [reflexivity|].
  apply last_None in E. discriminate.
Qed.

Lemma reduce_max_last (l : list Z) (m : Z) :
  nondecreasing l = true -> reduce_max l = Some m -> last l = Some m.
Proof.
  destruct l as [|a l]; [discriminate|]. intros Hs [= <-].
  rewrite (reduce_max_sorted l a Hs).
  change (last (a :: l)) with (match l with [] => Some a | _ => last l end).
  destruct l as [|b l]; [reflexivity|].
  destruct (last (b :: l)) eqn:E; [reflexivity|].
  apply last_None in E. discriminate.
Qed.

Lemma scatter_fold_length (l : list (Z * Z * list R)) :
  forall init, length (scatter_fold l init) = length init.
Proof.
  induction l as [|a l IH]; intros init; [reflexivity|].
  unfold scatter_fold in *. simpl. rewrite IH. apply length_alter.
Qed.

Lemma scatter_nd_length (indices : list (Z * Z)) (updates : list (list R))
    (n t d : nat) (out : list (list (list R))) :
  scatter_nd indices updates (n, t, d) = Some out -> length out = n.
Proof.
  unfold scatter_nd. destruct (_ && _); [|discriminate]. intros [= <-].
  fold (scatter_fold (zip indices updates)
                     (replicate n (replicate t (replicate d 0%R)))).
  rewrite scatter_fold_length. apply length_replicate.
Qed.

Arguments scatter_nd : simpl never.
Arguments dynamic_rnn : simpl never.
Arguments gather : simpl never.
Arguments reshape2 : simpl never.
Arguments segment_sum : simpl never.
Arguments l2_normalize : simpl never.

(** When [lens] does not have one entry per path, [dynamic_rnn] rejects it
    and the forward pass produces nothing. *)
Lemma PathEmbedding_call_lens_mismatch (self : PathEmbedding) (X : Tensor2)
    (lens : list Z) :
  segment_sum (ones_like (idx self)) (idx self) = Some lens ->
  length lens <> (num_quests self * num_paths self)%nat ->
  PathEmbedding_call self X = None.
Proof.
  intros Hlens Hne. unfold PathEmbedding_call. cbv zeta.
  destruct (gather _ _) as [h|]; simpl; [|reflexivity].
  destruct (stack_pairs _ _) as [ids|]; simpl; [|reflexivity].
  destruct (reduce_max _) as [m|]; simpl; [|reflexivity].
  rewrite Hlens. simpl.
  destruct (scatter_nd ids h _) as [li|] eqn:Hli; simpl; [|reflexivity].
  destruct (flow_size self) as [fs|]; simpl; [|reflexivity].
  apply scatter_nd_length in Hli.
  unfold dynamic_rnn. rewrite Hli.
  apply Nat.eqb_neq in Hne. rewrite Hne, andb_false_r. reflexivity.
Qed.

(** C6. The vector [lens] has [max(idx) + 1] entries.  When that is less
    than [num_quests * num_paths] (the highest-numbered paths have no step),
    [lens] is shorter than the recurrent batch and the forward pass produces
    no result; and a path that [lens] covers with length zero has an id
    smaller than that of some path that owns a step. *)
Theorem PathEmbedding_lens_length_is_max_idx_plus_one
    (self : PathEmbedding) (lens : list Z) :
  segment_sum (ones_like (idx self)) (idx self) = Some lens ->
  (forall m : Z, reduce_max (idx self) = Some m ->
                 Z.of_nat (length lens) = (m + 1)%Z)
  /\ (idx self = [] -> lens = [])
  /\ ((length lens < num_quests self * num_paths self)%nat ->
      forall X : Tensor2, PathEmbedding_call self X = None)
  /\ (forall p : nat, lens !! p = Some 0%Z ->
        exists (i : nat) (q : Z),
          idx self !! i = Some q /\ (Z.of_nat p < q)%Z).
Proof.
  intros H. pose proof (segment_sum_ones _ _ H) as (Hnn & Hs & Hlens).
  assert (Hlen : length lens
                 = match last (idx self) with
                   | Some s => Z.to_nat (s + 1) | None => 0%nat end).
  { rewrite Hlens, segment_fold_length. apply length_replicate. }
  split; [|split; [|split]].
  - intros m Hm. apply (reduce_max_last _ _ Hs) in Hm.
    rewrite Hlen, Hm.
    assert (0 <= m)%Z; [|lia].
    rewrite Forall_forall in Hnn. apply Hnn.
    apply last_Some in Hm as [l' ->]. apply elem_of_app. right. by left.
  - intros He. rewrite He in Hlen. simpl in Hlen. by destruct lens.
  - intros Hshort X.
    apply (PathEmbedding_call_lens_mismatch self X lens H). lia.
  - intros p Hp.
    assert (Hplt : (p < length lens)%nat) by (eapply lookup_lt_Some; exact Hp).
    destruct (last (idx self)) as [m|] eqn:Hm; [|rewrite Hlen in Hplt; lia].
    destruct (lens_lookup_count (idx self) lens p H Hplt)
      as [c [Hc Hcount]].
    rewrite Hp in Hc. injection Hc as <-.
    pose proof Hm as Hm'. apply last_Some in Hm' as [l' Hl'].
    exists (length l'), m. split.
    + rewrite Hl'. rewrite lookup_app_r by lia.
      by rewrite Nat.sub_diag.
    + rewrite Hlen in Hplt.
      destruct (Z.eq_dec (Z.of_nat p) m) as [Heq|Hneq]; [|lia].
      exfalso. rewrite Hl' in Hcount. unfold count_steps in Hcount.
      rewrite List.filter_app, length_app in Hcount. simpl in Hcount.
      rewrite Heq, Z.eqb_refl in Hcount. simpl in Hcount. lia.
Qed.

Lemma PathEmbedding_lens_length_is_max_idx_plus_one_witness :
  segment_sum (ones_like (idx pe_trailing_example)) (idx pe_trailing_example)
  = Some [1%Z]
  /\ Z.of_nat (length [1%Z]) = (0 + 1)%Z
  /\ PathEmbedding_call pe_trailing_example link_example = None.
Proof.
  assert (H : segment_sum (ones_like (idx pe_trailing_example))
                          (idx pe_trailing_example) = Some [1%Z])
    by reflexivity.
  destruct (PathEmbedding_lens_length_is_max_idx_plus_one
              pe_trailing_example [1%Z] H) as (Hlen & _ & Hnone & _).
  split; [exact H|]. split.
  - apply Hlen. reflexivity.
  - apply Hnone. simpl. lia.
Defined.

(** ** PathEmbedding: paths without steps *)

Lemma well_shaped_l2_normalize (X : Tensor2) :
  well_shaped X -> well_shaped (l2_normalize X).
Proof.
  intros [H0 H1]. unfold well_shaped, l2_normalize. cbn [rows dim0 dim1]. split.
  - by rewrite length_map.
  - apply Forall_forall. intros r Hr.
    apply list_elem_of_In, in_map_iff in Hr as (r0 & <- & Hr0).
    rewrite length_map. rewrite Forall_forall in H1.
    apply H1. by apply list_elem_of_In.
Qed.

Lemma gather_ok (X : Tensor2) (ps : list Z) :
  well_shaped X ->
  Forall (fun l => in_range (dim0 X) l = true) ps ->
  exists h, gather X ps = Some h /\ length h = length ps /\
            Forall (fun r => length r = dim1 X) h.
Proof.
  intros [H0 H1] Hps.
  induction Hps as [|l ps Hl _ IH].
  - exists []. by repeat split.
  - destruct IH as (h & Hh & Hlen & Hrows).
    assert (Hb : (Z.to_nat l < length (rows X))%nat)
      by (unfold in_range in Hl; lia).
    destruct (lookup_lt_is_Some_2 (rows X) (Z.to_nat l) Hb) as [r Hr].
    exists (r :: h).
    change (gather X (l :: ps))
      with (y ← (if in_range (dim0 X) l then rows X !! Z.to_nat l else None);
            k ← gather X ps; mret (y :: k)).
    rewrite Hl, Hr, Hh. simpl. split; [reflexivity|]. split; [by rewrite Hlen|].
    constructor; [|exact Hrows].
    rewrite Forall_forall in H1. apply H1.
    eapply list_elem_of_lookup_2. exact Hr.
Qed.

Lemma fold_max_ge (l : list Z) :
  forall a, (a <= fold_left Z.max l a)%Z /\
            Forall (fun s => (s <= fold_left Z.max l a)%Z) l.
Proof.
  induction l as [|b l IH]; intros a; simpl; [split; [lia|constructor]|].
  destruct (IH (Z.max a b)) as [H1 H2]. split; [lia|].
  constructor; [lia|exact H2].
Qed.

Lemma reduce_max_ge (l : list Z) (m : Z) :
  reduce_max l = Some m -> Forall (fun s => (s <= m)%Z) l.
Proof.
  destruct l as [|a l]; [discriminate|]. intros [= <-].
  destruct (fold_max_ge l a) as [H1 H2]. by constructor.
Qed.

Lemma rnn_steps_zero (cell : list R -> list R -> list R) (xs : list (list R))
    (len : Z) :
  (len <= 0)%Z ->
  forall (time : nat) (state : list R), rnn_steps cell time xs len state = state.
Proof.
  intros Hlen. induction xs as [|x xs IH]; intros time state; [reflexivity|].
  simpl. rewrite IH.
  destruct (Z.ltb_spec (Z.of_nat time) len); [lia|reflexivity].
Qed.

Lemma rnn_steps_length (cell : list R -> list R -> list R) (k : nat)
    (xs : list (list R)) (len : Z) :
  (forall x h, length h = k -> length (cell x h) = k) ->
  forall (time : nat) (state : list R),
    length state = k -> length (rnn_steps cell time xs len state) = k.
Proof.
  intros Hcell. induction xs as [|x xs IH]; intros time state Hs; [exact Hs|].
  simpl. apply IH. destruct (_ <? _)%Z; auto.
Qed.

Lemma concat_singletons (l : list (list R)) :
  Forall (fun s => length s = 1%nat) l ->
  concat l = map (fun s => nth 0 s 0%R) l.
Proof.
  induction 1 as [|s l Hs _ IH]; [reflexivity|].
  destruct s as [|v [|w s]]; try discriminate. simpl. by rewrite IH.
Qed.

Lemma get2_reshape2 (flat : list R) (r c p : nat) (out : Tensor2) :
  reshape2 flat r c = Some out ->
  (p < r * c)%nat ->
  get2 out (p / c) (p mod c) = nth p flat 0%R.
Proof.
  unfold reshape2. destruct (_ =? _)%nat; [|discriminate].
  intros [= <-] Hp.
  assert (Hc : c <> 0%nat) by lia.
  rewrite get2_build2.
  - f_equal. pose proof (Nat.div_mod p c Hc). lia.
  - apply Nat.Div0.div_lt_upper_bound. lia.
  - by apply Nat.mod_upper_bound.
Qed.

Lemma segment_sum_ok (ids : list Z) :
  Forall (fun s => (0 <= s)%Z) ids -> nondecreasing ids = true ->
  segment_sum (ones_like ids) ids
  = Some (segment_fold ids
            (replicate (match last ids with
                        | Some s => Z.to_nat (s + 1)
                        | None => 0%nat
                        end) 0%Z)).
Proof.
  intros Hnn Hs. unfold segment_sum.
  rewrite length_ones_like, Nat.eqb_refl, Hs.
  assert (Hf : forallb (fun s => (0 <=? s)%Z) ids = true).
  { apply forallb_forall. intros s Hin. rewrite Forall_forall in Hnn.
    apply list_elem_of_In, Hnn in Hin. lia. }
  rewrite Hf. reflexivity.
Qed.

Lemma Forall_zip_both {A B : Type} (P : A -> Prop) (Q : B -> Prop)
    (l : list A) :
  Forall P l ->
  forall k : list B, Forall Q k -> Forall (fun ab => P ab.1 /\ Q ab.2) (zip l k).
Proof.
  induction 1 as [|a l Ha _ IH]; intros k Hk; [constructor|].
  destruct Hk as [|b k Hb Hk]; [constructor|].
  simpl. constructor; [by split|]. by apply IH.
Qed.

Lemma scatter_nd_ok (indices : list (Z * Z)) (updates : list (list R))
    (n t d : nat) :
  length indices = length updates ->
  Forall (fun r => length r = d) updates ->
  Forall (fun ps => in_range n ps.1 = true /\ in_range t ps.2 = true) indices ->
  exists out, scatter_nd indices updates (n, t, d) = Some out /\ length out = n.
Proof.
  intros Hlen Hup Hin.
  assert (H1 : forallb (fun r => (length r =? d)%nat) updates = true).
  { apply forallb_forall. intros r Hr. rewrite Forall_forall in Hup.
    apply list_elem_of_In, Hup in Hr. by apply Nat.eqb_eq. }
  assert (H2 : forallb (fun ps => in_range n ps.1 && in_range t ps.2) indices
               = true).
  { apply forallb_forall. intros ps Hps. rewrite Forall_forall in Hin.
    apply list_elem_of_In, Hin in Hps as [-> ->]. reflexivity. }
  destruct (scatter_nd indices updates (n, t, d)) as [out|] eqn:E.
  - exists out. split; [reflexivity|]. by apply scatter_nd_length in E.
  - exfalso. unfold scatter_nd in E.
    rewrite Hlen, Nat.eqb_refl, H1, H2 in E. discriminate.
Qed.

Lemma dynamic_rnn_ok (cell : list R -> list R -> list R) (state_size : nat)
    (inputs : list (list (list R))) (initial_state : list (list R))
    (sequence_length : list Z) :
  length initial_state = length inputs ->
  Forall (fun h => length h = state_size) initial_state ->
  length sequence_length = length inputs ->
  dynamic_rnn cell state_size inputs initial_state sequence_length
  = Some (zip_with (fun xh len => rnn_steps cell 0 xh.1 len xh.2)
                   (zip inputs initial_state) sequence_length).
Proof.
  intros H1 H2 H3. unfold dynamic_rnn.
  assert (Hf : forallb (fun h => (length h =? state_size)%nat) initial_state
               = true).
  { apply forallb_forall. intros h Hh. rewrite Forall_forall in H2.
    apply list_elem_of_In, H2 in Hh. by apply Nat.eqb_eq. }
  rewrite H1, H3, Nat.eqb_refl, Hf. reflexivity.
Qed.

(** C2, as the code has it.  For valid inputs in which the last path id
    [num_quests * num_paths - 1] owns a step (so that [lens] has one entry
    per path), the forward pass returns a result, and a path [p] without
    steps has its initial state [flow_size[p]] at its place
    [(p / num_paths, p mod num_paths)] of the output. *)
Theorem PathEmbedding_empty_path_keeps_flow_size
    (self : PathEmbedding) (flow : list R) (X : Tensor2) (p : nat) :
  valid_inputs self flow X ->
  last (idx self)
  = Some (Z.of_nat (num_quests self * num_paths self) - 1)%Z ->
  (p < num_quests self * num_paths self)%nat ->
  count_steps (Z.of_nat p) (idx self) = 0%Z ->
  exists out,
    PathEmbedding_call self X = Some out /\
    get2 out (p / num_paths self) (p mod num_paths self) = nth p flow 0%R.
Proof.
  intros (Hwf & Hd1 & Hl1 & Hl2 & Hpaths & Hidx & Hsorted & Hseqs & Hflow
          & Hflen & Hpsd & Hcell) Hlast Hp Hcount.
  set (n := (num_quests self * num_paths self)%nat) in *.
  unfold PathEmbedding_call. cbv zeta. fold n.
  (* gather *)
  destruct (gather_ok (l2_normalize X) (paths self)
              (well_shaped_l2_normalize X Hwf) Hpaths)
    as (h & -> & Hhlen & Hhrows).
  (* stack *)
  unfold stack_pairs. rewrite Hl2, Nat.eqb_refl.
  (* reduce_max *)
  destruct (reduce_max (seqs self)) as [m|] eqn:Hm; cycle 1.
  { exfalso. destruct (seqs self); [|discriminate].
    destruct (idx self); [discriminate|discriminate]. }
  pose proof (reduce_max_ge _ _ Hm) as Hmax.
  (* segment_sum *)
  assert (Hnn : Forall (fun s => (0 <= s)%Z) (idx self)).
  { eapply Forall_impl; [exact Hidx|]. intros q Hq. unfold in_range in Hq. lia. }
  rewrite (segment_sum_ok _ Hnn Hsorted), Hlast.
  replace (Z.to_nat (Z.of_nat n - 1 + 1)) with n by lia.
  set (lens := segment_fold (idx self) (replicate n 0%Z)).
  assert (Hlens : length lens = n).
  { subst lens. rewrite segment_fold_length. apply length_replicate. }
  assert (Hlp : lens !! p = Some 0%Z).
  { subst lens. rewrite segment_fold_lookup by exact Hnn.
    rewrite lookup_replicate_2 by exact Hp. simpl. by rewrite Hcount. }
  (* scatter_nd *)
  destruct (scatter_nd_ok (zip (idx self) (seqs self)) h n
              (Z.to_nat (m + 1)) (link_state_dim self))
    as (li & Hli & Hlilen).
  { rewrite length_zip_with. lia. }
  { rewrite <- Hd1. exact Hhrows. }
  { apply (Forall_zip_both (fun q => in_range n q = true)
             (fun s => in_range (Z.to_nat (m + 1)) s = true)); [exact Hidx|].
    rewrite Forall_forall in Hseqs, Hmax. apply Forall_forall. intros s Hs.
    specialize (Hseqs s Hs). specialize (Hmax s Hs). unfold in_range.
    apply andb_true_iff. split; [apply Z.leb_le|apply Z.ltb_lt]; lia. }
  simpl. rewrite Hli. simpl.
  (* initial state *)
  rewrite Hflow. unfold reshape_column. rewrite Hflen, Nat.eqb_refl. simpl.
  (* dynamic_rnn *)
  rewrite dynamic_rnn_ok; cycle 1.
  { rewrite length_map. lia. }
  { rewrite Hpsd. apply Forall_forall. intros s Hs.
    apply list_elem_of_In, in_map_iff in Hs as (v & <- & _). reflexivity. }
  { lia. }
  simpl.
  set (states := zip_with _ _ lens).
  assert (Hst1 : Forall (fun s => length s = 1%nat) states).
  { apply Forall_forall. intros s Hs. subst states.
    apply elem_of_lookup_zip_with in Hs as (i & [xs h0] & len & -> & Hxh & _).
    apply lookup_zip_Some in Hxh as [_ Hh0]. simpl.
    apply (rnn_steps_length _ 1%nat); [exact Hcell|].
    apply list_lookup_fmap_Some in Hh0 as (v & -> & _). reflexivity. }
  assert (Hstlen : length states = n).
  { subst states. rewrite length_zip_with, length_zip_with, length_map. lia. }
  assert (Hstp : states !! p = Some [nth p flow 0%R]).
  { subst states. rewrite lookup_zip_with.
    destruct (lookup_lt_is_Some_2 li p) as [xs Hxs]; [lia|].
    destruct (lookup_lt_is_Some_2 flow p) as [v Hv]; [lia|].
    assert (Hz : zip li (map (fun x => [x]) flow) !! p = Some (xs, [v])).
    { apply lookup_zip_Some. split; [exact Hxs|].
      by rewrite list_lookup_fmap, Hv. }
    rewrite Hz, Hlp. simpl. rewrite rnn_steps_zero by lia.
    by rewrite (nth_lookup_Some _ _ _ _ Hv). }
  destruct (reshape2 (concat states) (num_quests self) (num_paths self))
    as [out|] eqn:Hout; cycle 1.
  { exfalso. unfold reshape2 in Hout.
    rewrite (concat_singletons _ Hst1), length_map, Hstlen in Hout.
    fold n in Hout. rewrite Nat.eqb_refl in Hout. discriminate. }
  exists out. split; [reflexivity|].
  rewrite (get2_reshape2 _ _ _ p _ Hout) by exact Hp.
  rewrite (concat_singletons _ Hst1).
  rewrite (nth_map_default _ states [] 0%R p) by reflexivity.
  by rewrite (nth_lookup_Some _ _ _ _ Hstp).
Qed.

Lemma cell_example_length (x h : list R) :
  length (cell_example x h) = length h.
Proof. unfold cell_example. apply length_map. Qed.

Lemma pe_gap_example_valid :
  valid_inputs pe_gap_example [5%R; 7%R; 9%R] link_example.
Proof.
  unfold valid_inputs, well_shaped. simpl.
  repeat split; try reflexivity; repeat constructor; try lia.
  intros x h Hh. by rewrite cell_example_length.
Defined.

Lemma PathEmbedding_empty_path_keeps_flow_size_witness :
  exists out,
    PathEmbedding_call pe_gap_example link_example = Some out /\
    get2 out (1 / 3) (1 mod 3) = nth 1 [5%R; 7%R; 9%R] 0%R.
Proof.
  apply (PathEmbedding_empty_path_keeps_flow_size
           pe_gap_example [5%R; 7%R; 9%R] link_example 1 pe_gap_example_valid).
  - reflexivity.
  - simpl. lia.
  - reflexivity.
Defined.

(** C2, as stated, fails: with two paths of which only path 0 owns a step,
    the inputs are valid and path 1 has no step, yet [lens] has a single
    entry and the forward pass produces no result at all, so no final state
    [flow_size[1] = 7] is returned for path 1. *)
Lemma PathEmbedding_trailing_empty_path_no_result :
  valid_inputs pe_trailing_example [5%R; 7%R] link_example
  /\ count_steps 1 (idx pe_trailing_example) = 0%Z
  /\ segment_sum (ones_like (idx pe_trailing_example)) (idx pe_trailing_example)
     = Some [1%Z]
  /\ PathEmbedding_call pe_trailing_example link_example = None
  /\ ~ (exists out,
           PathEmbedding_call pe_trailing_example link_example = Some out /\
           get2 out (1 / 2) (1 mod 2) = nth 1 [5%R; 7%R] 0%R).
Proof.
  assert (Hnone : PathEmbedding_call pe_trailing_example link_example = None).
  { apply (PathEmbedding_call_lens_mismatch _ _ [1%Z]); [reflexivity|].
    simpl. lia. }
  split; [|split; [reflexivity|split; [reflexivity|split; [exact Hnone|]]]].
  - unfold valid_inputs, well_shaped. simpl.
    repeat split; try reflexivity; repeat constructor; try lia.
    intros x h Hh. by rewrite cell_example_length.
  - intros (out & Hout & _). rewrite Hnone in Hout. discriminate.
Qed.

(** The end-to-end example of the specification: path 0 consumes its two
    steps (links 0 and 1), path 1 its single step (link 2), and the output
    has shape [[1, 2]]. *)
Example PathEmbedding_end_to_end :
  let normed := rows (l2_normalize links3_example) in
  exists out,
    PathEmbedding_call pe_example links3_example = Some out
    /\ dim0 out = 1%nat /\ dim1 out = 2%nat
    /\ get2 out 0 0
       = nth 0 (cell_example (nth 1 normed [])
                             (cell_example (nth 0 normed []) [5%R])) 0%R
    /\ get2 out 0 1 = nth 0 (cell_example (nth 2 normed []) [7%R]) 0%R.
Proof.
  cbv zeta. eexists. split; [reflexivity|].
  split; [reflexivity|]. split; [reflexivity|].
  split; vm_compute; lra.
Qed.

(** * Further properties *)

(** ** Names and the name counter, continued *)

Lemma get_layer_uids_store (tags : list string) :
  forall (uids : gmap string Z) (tag : string),
    (get_layer_uids tags uids).2 !! tag
    = if (calls_with tag tags =? 0)%nat then uids !! tag
      else Some (default 0 (uids !! tag) + Z.of_nat (calls_with tag tags))%Z.
Proof.
  induction tags as [|t rest IH]; intros uids tag; [reflexivity|].
  simpl. rewrite get_layer_uid_eq.
  specialize (IH (<[t := (default 0 (uids !! t) + 1)%Z]> uids) tag).
  destruct (get_layer_uids rest _) as [ns uids2]. simpl in *.
  rewrite IH. unfold calls_with. simpl.
  destruct (String.eqb_spec t tag) as [->|Hne]; simpl.
  - rewrite lookup_insert_eq. simpl.
    destruct (length _ =? 0)%nat eqn:E;
      [apply Nat.eqb_eq in E; rewrite E|]; f_equal; lia.
  - rewrite lookup_insert_ne by exact Hne. reflexivity.
Qed.

(** X1. After any sequence of [get_layer_uid] calls from the empty dictionary,
    the dictionary holds, for every tag, the number of calls made with that
    tag, and no entry for a tag that was never used. *)
Theorem get_layer_uids_final_store (tags : list string) (tag : string) :
  (get_layer_uids tags _LAYER_UIDS_init).2 !! tag
  = if (calls_with tag tags =? 0)%nat then None
    else Some (Z.of_nat (calls_with tag tags)).
Proof.
  rewrite get_layer_uids_store. unfold _LAYER_UIDS_init.
  rewrite lookup_empty. simpl. reflexivity.
Qed.

Lemma issued_above_store (tags : list string) :
  forall (uids : gmap string Z) (t : string) (n : Z),
    (t, n) ∈ (get_layer_uids tags uids).1 ->
    (default 0 (uids !! t) < n)%Z.
Proof.
  induction tags as [|t0 rest IH]; intros uids t n Hin.
  - inversion Hin.
  - simpl in Hin. rewrite get_layer_uid_eq in Hin.
    specialize (IH (<[t0 := (default 0 (uids !! t0) + 1)%Z]> uids) t n).
    destruct (get_layer_uids rest _) as [ns uids2]. simpl in *.
    apply elem_of_cons in Hin as [[= -> ->]|Hin]; [lia|].
    specialize (IH Hin).
    destruct (decide (t0 = t)) as [->|Hne].
    + rewrite lookup_insert_eq in IH. simpl in IH. lia.
    + rewrite lookup_insert_ne in IH by exact Hne. exact IH.
Qed.

Lemma get_layer_uids_NoDup (tags : list string) :
  forall uids : gmap string Z, NoDup (get_layer_uids tags uids).1.
Proof.
  induction tags as [|t0 rest IH]; intros uids; [constructor|].
  simpl. rewrite get_layer_uid_eq.
  pose proof (issued_above_store rest
                (<[t0 := (default 0 (uids !! t0) + 1)%Z]> uids) t0
                (default 0 (uids !! t0) + 1)%Z) as Habove.
  specialize (IH (<[t0 := (default 0 (uids !! t0) + 1)%Z]> uids)).
  destruct (get_layer_uids rest _) as [ns uids2]. simpl in *.
  constructor; [|exact IH].
  intros Hin. specialize (Habove Hin).
  rewrite lookup_insert_eq in Habove. simpl in Habove. lia.
Qed.

Lemma no_underscore_pretty_N_go (x : N) :
  forall s, no_underscore s = true -> no_underscore (pretty_N_go x s) = true.
Proof.
  induction (N.lt_wf_0 x) as [x _ IH]; intros s Hs.
  assert (x = 0 \/ 0 < x)%N as [->|Hx] by lia.
  - by rewrite pretty_N_go_0.
  - rewrite pretty_N_go_step by done. apply IH.
    { by apply N.div_lt. }
    simpl. rewrite Hs. unfold pretty_N_char. by repeat case_match.
Qed.

Lemma no_underscore_str (n : Z) : no_underscore (str n) = true.
Proof.
  unfold str, pretty, pretty_Z. destruct n as [|p|p]; [reflexivity| |].
  - unfold pretty, pretty_positive, pretty, pretty_N.
    case_decide; [reflexivity|]. by apply no_underscore_pretty_N_go.
  - unfold pretty, pretty_positive, pretty, pretty_N.
    case_decide; [reflexivity|]. simpl. by apply no_underscore_pretty_N_go.
Qed.

Lemma no_underscore_app_underscore (a b : string) :
  no_underscore (a +:+ "_" +:+ b) = false.
Proof.
  induction a as [|c a IH]; [reflexivity|].
  simpl. fold (a +:+ "_" +:+ b). rewrite IH. apply andb_false_r.
Qed.

Lemma default_name_inj (t1 t2 d1 d2 : string) :
  no_underscore d1 = true -> no_underscore d2 = true ->
  t1 +:+ "_" +:+ d1 = t2 +:+ "_" +:+ d2 -> t1 = t2 /\ d1 = d2.
Proof.
  intros H1 H2. revert t2.
  induction t1 as [|c t1 IH]; intros [|c2 t2] H; simpl in H.
  - injection H as H. change (d1 = d2) in H. by subst.
  - exfalso. injection H as <- H. change (d1 = t2 +:+ "_" +:+ d2) in H.
    subst d1. by rewrite no_underscore_app_underscore in H1.
  - exfalso. injection H as -> H. change (t1 +:+ "_" +:+ d1 = d2) in H.
    subst d2. by rewrite no_underscore_app_underscore in H2.
  - injection H as -> H. destruct (IH t2 H) as [-> ->]. done.
Qed.

Lemma check_kwargs_ok (keys : list string) :
  check_kwargs keys = Ok tt <-> Forall (fun k => k ∈ allowed_kwargs) keys.
Proof.
  induction keys as [|k ks IH]; simpl.
  - split; [constructor|reflexivity].
  - destruct (decide (k ∈ allowed_kwargs)) as [Hk|Hk].
    + rewrite IH. split; [by constructor|]. intros H. by inversion H.
    + split; [discriminate|]. intros H. by inversion H.
Qed.

Lemma Layer_init_succeeds_iff_keys_allowed_aux
    (cls : string) (kwargs : kwargs_t) (uids : gmap string Z) :
  ((exists self uids', Layer_init cls kwargs uids = (Ok self, uids')) ->
   Forall (fun k => k ∈ allowed_kwargs) (kwargs_keys kwargs))
  /\
  (Forall (fun k => k ∈ allowed_kwargs) (kwargs_keys kwargs) ->
   exists self uids', Layer_init cls kwargs uids = (Ok self, uids') /\
                      vars self = ∅).
Proof.
  split.
  - intros (self & u & H). apply check_kwargs_ok. unfold Layer_init in H.
    destruct (check_kwargs _) as [[]|e]; [reflexivity|discriminate].
  - intros H. unfold Layer_init. rewrite (proj2 (check_kwargs_ok _) H).
    destruct (truthy _); [by eexists _, _|].
    destruct (get_layer_uid _ _). by eexists _, _.
Qed.

Lemma Layer_inits_default_names (reqs : list (string * kwargs_t)) :
  forall uids : gmap string Z,
    Forall default_named reqs ->
    exists layers,
      (Layer_inits reqs uids).1 = map Ok layers /\
      map name layers
      = map default_name_of
            (get_layer_uids (map (fun r => lower r.1) reqs) uids).1 /\
      (Layer_inits reqs uids).2
      = (get_layer_uids (map (fun r => lower r.1) reqs) uids).2.
Proof.
  induction reqs as [|[cls kw] rest IH]; intros uids Hall.
  - exists []. by repeat split.
  - inversion Hall as [|? ? [Hkeys Hname] Hrest]; subst. simpl in Hkeys, Hname.
    simpl. unfold Layer_init.
    rewrite (proj2 (check_kwargs_ok _) Hkeys), Hname.
    destruct (get_layer_uid (lower cls) uids) as [n uids1].
    destruct (IH uids1 Hrest) as (layers & Hl & Hn & Hs).
    destruct (Layer_inits rest uids1) as [rs uids2].
    destruct (get_layer_uids _ uids1) as [ns uids3]. simpl in *.
    eexists (_ :: layers). simpl. rewrite Hl, Hn, Hs. by repeat split.
Qed.

(** X2. Layers constructed one after the other without a (truthy) name, of
    whatever classes and from whatever state of the counter, are all
    constructed successfully and receive pairwise distinct names. *)
Theorem Layer_default_names_distinct
    (reqs : list (string * kwargs_t)) (uids : gmap string Z) :
  Forall default_named reqs ->
  exists layers,
    (Layer_inits reqs uids).1 = map Ok layers /\
    length layers = length reqs /\
    NoDup (map name layers).
Proof.
  intros Hall.
  destruct (Layer_inits_default_names reqs uids Hall) as (layers & Hl & Hn & _).
  exists layers. split; [exact Hl|]. split.
  - apply (f_equal length) in Hn. rewrite !length_map in Hn.
    rewrite Hn. clear. revert uids.
    induction reqs as [|r rest IH]; intros uids; [reflexivity|].
    simpl. destruct (get_layer_uid _ uids) as [n u1].
    specialize (IH u1). destruct (get_layer_uids _ u1). simpl in *. by rewrite IH.
  - rewrite Hn. apply NoDup_fmap_2_strong; [|apply get_layer_uids_NoDup].
    intros [t1 n1] [t2 n2] _ _ H. unfold default_name_of in H. simpl in H.
    injection H as H.
    apply default_name_inj in H as [-> Hd]; try apply no_underscore_str.
    unfold str in Hd. by apply (inj pretty) in Hd as ->.
Qed.

Lemma Layer_default_names_distinct_witness :
  exists layers,
    (Layer_inits [("Dense", []); ("GraphConvolution", [("logging", PyBool true)]);
                  ("Dense", [])] ∅).1 = map Ok layers /\
    length layers
    = length [("Dense", [] : kwargs_t);
              ("GraphConvolution", [("logging", PyBool true)]); ("Dense", [])] /\
    NoDup (map name layers).
Proof.
  apply (Layer_default_names_distinct
           [("Dense", []); ("GraphConvolution", [("logging", PyBool true)]);
            ("Dense", [])] ∅).
  repeat (constructor; [split; [repeat constructor|reflexivity]|]).
  constructor.
Defined.

(** X3. [Layer.__init__] succeeds exactly when every keyword is [name] or
    [logging]; with a truthy [name] the layer keeps that name, has no
    variables, takes [logging] from the keywords (default [False]), and the
    name counter is left untouched. *)
Theorem Layer_init_succeeds_iff_keys_allowed
    (cls : string) (kwargs : kwargs_t) (uids : gmap string Z) :
  ((exists self, (Layer_init cls kwargs uids).1 = Ok self)
   <-> Forall (fun k => k ∈ allowed_kwargs) (kwargs_keys kwargs))
  /\
  (Forall (fun k => k ∈ allowed_kwargs) (kwargs_keys kwargs) ->
   truthy (kwargs_get kwargs "name" PyNone) = true ->
   Layer_init cls kwargs uids
   = (Ok (mkLayer (kwargs_get kwargs "name" PyNone) ∅
                  (kwargs_get kwargs "logging" (PyBool false)) false),
      uids)).
Proof.
  split; [split|].
  - intros [self H]. apply check_kwargs_ok. unfold Layer_init in H.
    destruct (check_kwargs _) as [[]|e]; [reflexivity|discriminate].
  - intros H. unfold Layer_init. rewrite (proj2 (check_kwargs_ok _) H).
    destruct (truthy _); [by eexists|].
    destruct (get_layer_uid _ _). by eexists.
  - intros H Hn. unfold Layer_init.
    by rewrite (proj2 (check_kwargs_ok _) H), Hn.
Qed.

Lemma Layer_init_succeeds_iff_keys_allowed_witness :
  Layer_init "Layer" [("name", PyStr "gc1")] {[ "layer" := 4%Z ]}
  = (Ok (mkLayer (kwargs_get [("name", PyStr "gc1")] "name" PyNone) ∅
                 (kwargs_get [("name", PyStr "gc1")] "logging" (PyBool false))
                 false),
     {[ "layer" := 4%Z ]}).
Proof.
  apply (proj2 (Layer_init_succeeds_iff_keys_allowed
                  "Layer" [("name", PyStr "gc1")] {[ "layer" := 4%Z ]})).
  - repeat constructor.
  - reflexivity.
Defined.

(** ** Sparse dropout, continued *)

Lemma cast_bool_floor_threshold (keep_prob r : R) :
  (0 < keep_prob <= 1)%R -> (0 <= r < 1)%R ->
  cast_bool (floor (keep_prob + r)) = keeps keep_prob r.
Proof.
  intros Hk Hr. unfold keeps, cast_bool, floor.
  destruct (Rle_dec (1 - keep_prob) r) as [Hge|Hlt].
  - rewrite <- (Int_part_spec (keep_prob + r) 1%Z) by (simpl; lra).
    destruct (Req_dec_T 1 0); [lra|reflexivity].
  - rewrite <- (Int_part_spec (keep_prob + r) 0%Z) by (simpl; lra).
    destruct (Req_dec_T 0 0); [reflexivity|contradiction].
Qed.

Lemma dropout_mask_threshold (keep_prob : R) (u : list R) :
  (0 < keep_prob <= 1)%R -> Forall (fun r => (0 <= r < 1)%R) u ->
  dropout_mask_of keep_prob u = map (keeps keep_prob) u.
Proof.
  intros Hk. unfold dropout_mask_of. induction 1 as [|r u Hr _ IH]; [reflexivity|].
  simpl. rewrite cast_bool_floor_threshold by assumption. by f_equal.
Qed.

Lemma retain_length_le {A : Type} (l : list A) :
  forall mask, length (retain l mask) <= length l.
Proof.
  induction l as [|a l IH]; intros [|b mask]; simpl; try lia.
  destruct b; simpl; specialize (IH mask); lia.
Qed.

Lemma retain_sublist {A : Type} (l : list A) :
  forall mask, sublist (retain l mask) l.
Proof.
  induction l as [|a l IH]; intros [|b mask]; simpl.
  - constructor.
  - constructor.
  - apply sublist_nil_l.
  - destruct b; [by apply sublist_skip|by apply sublist_cons].
Qed.

Lemma retain_take {A : Type} (l : list A) :
  forall mask, retain l mask = retain (take (length mask) l) mask.
Proof.
  induction l as [|a l IH]; intros [|b mask]; simpl; try reflexivity.
  destruct b; by rewrite <- IH.
Qed.

(** X4. For a keep probability in (0, 1] and uniform samples in [0, 1), at
    most one per stored entry, [sparse_dropout] returns a result.  Entry [i]
    is kept exactly when sample [i] is at least [1 - keep_prob]; stored
    entries beyond the last sample are dropped; kept values are multiplied by
    [1 / keep_prob]; order, indices and the dense shape are unchanged. *)
Theorem sparse_dropout_keeps_samples_above_threshold
    (x : SparseTensor) (keep_prob : scalar) (u : list R) :
  (0 < scalar_value keep_prob <= 1)%R ->
  Forall (fun r => (0 <= r < 1)%R) u ->
  (length u <= length (entries x))%nat ->
  exists out,
    sparse_dropout x keep_prob u = Some out /\
    entries out
    = map (fun e => (fst e, (entry_val e * (1 / scalar_value keep_prob))%R))
          (retain (take (length u) (entries x))
                  (map (keeps (scalar_value keep_prob)) u))
    /\ sublist (map fst (entries out))
               (map fst (take (length u) (entries x)))
    /\ dense_shape out = dense_shape x.
Proof.
  intros Hk Hu Hlen.
  rewrite sparse_dropout_within by (first [lra | lia]).
  rewrite (dropout_mask_threshold _ _ Hk Hu).
  eexists. split; [reflexivity|]. simpl.
  rewrite (retain_take (entries x)), length_map.
  split; [reflexivity|]. split; [|reflexivity].
  rewrite map_map. simpl. apply (fmap_sublist fst), retain_sublist.
Qed.

Lemma sparse_dropout_keeps_samples_above_threshold_witness :
  exists out,
    sparse_dropout sparse_example (ScalarTensor (1 / 2)) [(3 / 4)%R] = Some out /\
    entries out
    = map (fun e => (fst e, (entry_val e
                             * (1 / scalar_value (ScalarTensor (1 / 2))))%R))
          (retain (take (length [(3 / 4)%R]) (entries sparse_example))
                  (map (keeps (scalar_value (ScalarTensor (1 / 2))))
                       [(3 / 4)%R]))
    /\ sublist (map fst (entries out))
               (map fst (take (length [(3 / 4)%R]) (entries sparse_example)))
    /\ dense_shape out = dense_shape sparse_example.
Proof.
  apply (sparse_dropout_keeps_samples_above_threshold
           sparse_example (ScalarTensor (1 / 2)) [(3 / 4)%R]).
  - simpl. lra.
  - repeat constructor; lra.
  - simpl. lia.
Defined.

(** ** Dense *)

Lemma sparse_tensor_dense_matmul_densify (x : SparseTensor) (d y : Tensor2) :
  densify x = Some d -> sparse_tensor_dense_matmul x y = matmul d y.
Proof.
  unfold densify, sparse_tensor_dense_matmul, matmul.
  destruct (dense_shape x) as [m n]. intros H.
  destruct (forallb _ (entries x)) eqn:Hrange; simpl in H; [|discriminate].
  destruct (strictly_ordered (entries x)) eqn:Hord; [|discriminate].
  injection H as <-. simpl.
  destruct (n =? dim0 y)%nat; [|reflexivity].
  f_equal. apply build2_ext. intros i j Hi Hj.
  pose proof (forallb_and_r _ _ _ Hrange) as Hcols.
  rewrite <- (stored_at_row_sum n (fun k => get2 y k j) (Z.of_nat i) (entries x)
                Hcols Hord).
  apply Rsum_map_ext_in. intros k Hk. apply in_seq in Hk.
  rewrite get2_build2 by lia. reflexivity.
Qed.

(** X5. Without dropout, a [Dense] layer with [sparse_inputs=True] applied to a
    sparse tensor gives the same result as the same layer with
    [sparse_inputs=False] applied to the dense matrix that tensor denotes,
    provided [num_features_nonzero] is the number of stored entries. *)
Theorem Dense_sparse_agrees_with_dense_without_dropout
    (self : Dense) (x : SparseTensor) (d : Tensor2)
    (us us' : nat -> R) (ud ud' : nat -> nat -> R) :
  dense_dropout self = None ->
  densify x = Some d ->
  num_features_nonzero self = length (entries x) ->
  (forall k, (0 <= us k < 1)%R) ->
  Dense_call (with_sparse_inputs self true) (SparseT x) us ud
  = Dense_call (with_sparse_inputs self false) (DenseT d) us' ud'.
Proof.
  intros Hd Hx Hn Hus. unfold Dense_call, with_sparse_inputs. simpl.
  rewrite Hd, Hn. simpl.
  rewrite sparse_dropout_one; cycle 1.
  { simpl. lra. }
  { by rewrite length_map, length_seq. }
  { apply Forall_forall. intros r Hr.
    apply list_elem_of_In, in_map_iff in Hr as (k & <- & _). apply Hus. }
  simpl. destruct (lookup_var2 _ _) as [W|]; simpl; [|reflexivity].
  by rewrite (sparse_tensor_dense_matmul_densify x d W Hx).
Qed.

Lemma Dense_sparse_agrees_with_dense_without_dropout_witness :
  Dense_call (with_sparse_inputs dense_layer_example true)
             (SparseT sparse_example) (fun _ => (1 / 4)%R) (fun _ _ => (1 / 4)%R)
  = Dense_call (with_sparse_inputs dense_layer_example false)
               (DenseT dense_example) (fun _ => (3 / 4)%R) (fun _ _ => (3 / 4)%R).
Proof.
  apply Dense_sparse_agrees_with_dense_without_dropout.
  - reflexivity.
  - reflexivity.
  - reflexivity.
  - intros k. lra.
Defined.

Lemma sparse_dropout_truncate (s : SparseTensor) (keep_prob : scalar)
    (u : list R) :
  (length u <= length (entries s))%nat ->
  sparse_dropout s keep_prob u
  = sparse_dropout (truncate_entries (length u) s) keep_prob u.
Proof.
  intros Hlen. unfold sparse_dropout.
  fold (dropout_mask_of (scalar_value keep_prob) u).
  rewrite (sparse_retain_within s)
    by (rewrite length_dropout_mask_of; exact Hlen).
  rewrite (sparse_retain_within (truncate_entries (length u) s))
    by (rewrite length_dropout_mask_of; unfold truncate_entries; simpl;
        rewrite length_take; lia).
  unfold truncate_entries. simpl.
  rewrite (retain_take (entries s)), length_dropout_mask_of. reflexivity.
Qed.

(** X6. [Dense._call] produces nothing when the input kind does not match the
    [sparse_inputs] flag; and a sparse input with more stored entries than
    [num_features_nonzero] is treated as if only its first
    [num_features_nonzero] entries were stored. *)
Theorem Dense_call_input_kind_and_truncation (self : Dense)
    (us : nat -> R) (ud : nat -> nat -> R) :
  (forall t, sparse_inputs (dense_layer self) = true ->
             Dense_call self (DenseT t) us ud = None)
  /\ (forall s, sparse_inputs (dense_layer self) = false ->
                Dense_call self (SparseT s) us ud = None)
  /\ (forall s, sparse_inputs (dense_layer self) = true ->
                (num_features_nonzero self <= length (entries s))%nat ->
                Dense_call self (SparseT s) us ud
                = Dense_call self
                    (SparseT (truncate_entries (num_features_nonzero self) s))
                    us ud).
Proof.
  unfold Dense_call. repeat split.
  - intros t ->. reflexivity.
  - intros s ->. reflexivity.
  - intros s -> Hle.
    rewrite (sparse_dropout_truncate s)
      by (by rewrite length_map, length_seq).
    by rewrite length_map, length_seq.
Qed.

Lemma Dense_call_input_kind_and_truncation_witness :
  Dense_call (with_sparse_inputs dense_layer_example true) (DenseT X_example)
             (fun _ => (1 / 4)%R) (fun _ _ => (1 / 4)%R) = None
  /\ Dense_call (with_sparse_inputs dense_layer_example false)
                (SparseT sparse_example)
                (fun _ => (1 / 4)%R) (fun _ _ => (1 / 4)%R) = None
  /\ Dense_call dense_layer_short_example (SparseT sparse_example)
                (fun _ => (1 / 4)%R) (fun _ _ => (1 / 4)%R)
     = Dense_call dense_layer_short_example
         (SparseT (truncate_entries
                     (num_features_nonzero dense_layer_short_example)
                     sparse_example))
         (fun _ => (1 / 4)%R) (fun _ _ => (1 / 4)%R).
Proof.
  split; [|split].
  - apply (proj1 (Dense_call_input_kind_and_truncation
                    (with_sparse_inputs dense_layer_example true) _ _)).
    reflexivity.
  - apply (proj1 (proj2 (Dense_call_input_kind_and_truncation
                           (with_sparse_inputs dense_layer_example false) _ _))).
    reflexivity.
  - apply (proj2 (proj2 (Dense_call_input_kind_and_truncation
                           dense_layer_short_example _ _))).
    + reflexivity.
    + simpl. lia.
Defined.

(** With [num_features_nonzero = 1] and two stored entries, only the first
    entry [(0, 1) -> 2] reaches the product with the weights [[1], [2]]. *)
Example Dense_call_truncates :
  exists out,
    Dense_call dense_layer_short_example (SparseT sparse_example)
               (fun _ => (1 / 4)%R) (fun _ _ => (1 / 4)%R) = Some out
    /\ get2 out 0 0 = 4%R /\ get2 out 1 0 = 0%R.
Proof.
  unfold Dense_call, dense_layer_short_example. simpl.
  rewrite sparse_dropout_within by (simpl; first [lra | lia]).
  simpl scalar_value. replace (1 - 0)%R with 1%R by lra.
  rewrite dropout_mask_keep_all by (repeat constructor; simpl; lra).
  simpl. eexists. split; [reflexivity|].
  unfold get2, relu. simpl. unfold Rmax.
  split; destruct (Rle_dec _ _); lra.
Qed.

Lemma dot_shape (x : tensor_arg) (y out : Tensor2) (sparse : bool) :
  dot x y sparse = Some out ->
  dim0 out = arg_rows x /\ dim1 out = dim1 y /\ well_shaped out.
Proof.
  unfold dot. destruct sparse, x as [t|s]; try discriminate.
  - unfold sparse_tensor_dense_matmul. destruct (dense_shape s) as [m n] eqn:E.
    destruct (_ =? _)%nat; [|discriminate].
    destruct (forallb _ _); [|discriminate].
    intros [= <-]. simpl. rewrite E. repeat split; apply well_shaped_build2.
  - intros H. by apply matmul_shape in H.
Qed.

(** X7. For a [Dense] layer whose variables have the constructor's shapes,
    every output has as many rows as the input and [output_dim] columns. *)
Theorem Dense_output_shape (self : Dense) (input_dim output_dim : nat)
    (inputs : tensor_arg) (us : nat -> R) (ud : nat -> nat -> R) (out : Tensor2) :
  dense_shapes self input_dim output_dim ->
  Dense_call self inputs us ud = Some out ->
  dim0 out = arg_rows inputs /\ dim1 out = output_dim /\ well_shaped out.
Proof.
  intros ((W & HW & HW0 & HW1) & Hbias & Hact) H.
  unfold Dense_call in H. rewrite HW in H.
  destruct (if sparse_inputs (dense_layer self) then _ else _) as [x|] eqn:Hx;
    simpl in H; [|discriminate].
  assert (Hrows : arg_rows x = arg_rows inputs).
  { destruct (sparse_inputs (dense_layer self)), inputs as [t|s];
      try discriminate.
    - destruct (sparse_dropout s _ _) as [s'|] eqn:Hs; [|discriminate].
      injection Hx as <-. simpl.
      apply sparse_dropout_Some in Hs as [_ Hshape]. by rewrite Hshape.
    - injection Hx as <-. by destruct (dense_dropout self). }
  destruct (dot x W _) as [o|] eqn:Ho; simpl in H; [|discriminate].
  apply dot_shape in Ho as (Ho0 & Ho1 & Howf).
  destruct (dense_bias self) eqn:Hb; simpl in H.
  - destruct (Hbias eq_refl) as (b & Hlb & Hlen). rewrite Hlb in H. simpl in H.
    destruct (add_bias o b) as [o'|] eqn:Ho'; simpl in H; [|discriminate].
    apply add_bias_shape in Ho' as (Hb0 & Hb1 & Hbwf); [|congruence].
    injection H as <-. destruct (Hact o') as (Ha0 & Ha1 & Hawf).
    split; [congruence|]. split; [congruence|auto].
  - injection H as <-. destruct (Hact o) as (Ha0 & Ha1 & Hawf).
    split; [congruence|]. split; [congruence|auto].
Qed.

Lemma dense_layer_example_shapes : dense_shapes dense_layer_example 2 1.
Proof.
  split; [|split].
  - exists W_example. by repeat split.
  - discriminate.
  - apply relu_shape_preserving.
Defined.

Lemma Dense_output_shape_witness :
  exists out,
    Dense_call dense_layer_example (DenseT X_example)
               (fun _ => (1 / 4)%R) (fun _ _ => (1 / 4)%R) = Some out
    /\ dim0 out = 2%nat /\ dim1 out = 1%nat /\ well_shaped out.
Proof.
  eexists. split; [reflexivity|].
  apply (Dense_output_shape dense_layer_example 2 1 (DenseT X_example)
           (fun _ => (1 / 4)%R) (fun _ _ => (1 / 4)%R) _
           dense_layer_example_shapes).
  reflexivity.
Defined.

(** X8. [Dense._call] never reads the [featureless] flag: two layers built from
    the same arguments except [featureless] behave identically. *)
Theorem Dense_ignores_featureless
    (glorot : nat -> nat -> Tensor2) (zeros : nat -> list R)
    (input_dim output_dim : nat) (placeholders : Placeholders) (nfn : nat)
    (dropout0 : R) (sparse_inputs0 : bool) (act : Tensor2 -> Tensor2)
    (bias0 : bool) (kwargs : kwargs_t) (uids : gmap string Z)
    (a b : Dense) (ua ub : gmap string Z) :
  Dense_init glorot zeros input_dim output_dim placeholders nfn dropout0
    sparse_inputs0 act bias0 true kwargs uids = (Ok a, ua) ->
  Dense_init glorot zeros input_dim output_dim placeholders nfn dropout0
    sparse_inputs0 act bias0 false kwargs uids = (Ok b, ub) ->
  ua = ub /\
  forall inputs us ud, Dense_call a inputs us ud = Dense_call b inputs us ud.
Proof.
  unfold Dense_init. destruct (Layer_init "Dense" kwargs uids) as [[base|e] u1];
    [|discriminate].
  destruct (variable_scope_vars (name base)); [|discriminate].
  intros [= <- <-] [= <- <-]. split; reflexivity.
Qed.

Lemma Dense_ignores_featureless_witness :
  exists a b u,
    Dense_init glorot_example zeros_example 2 1 ph_example 2 0 false relu
               false true [] ∅ = (Ok a, u)
    /\ Dense_init glorot_example zeros_example 2 1 ph_example 2 0 false relu
                  false false [] ∅ = (Ok b, u)
    /\ forall inputs us ud, Dense_call a inputs us ud = Dense_call b inputs us ud.
Proof.
  eexists _, _, _. split; [reflexivity|]. split; [reflexivity|].
  eapply proj2.
  apply (Dense_ignores_featureless glorot_example zeros_example 2 1 ph_example
           2 0 false relu false [] ∅); reflexivity.
Defined.

(** X9. [GraphConvolution._call] never reads the [sparse_inputs] flag: two
    layers built from the same arguments except [sparse_inputs] behave
    identically. *)
Theorem GraphConvolution_ignores_sparse_inputs
    (glorot : nat -> nat -> Tensor2) (zeros : nat -> list R)
    (input_dim output_dim : nat) (placeholders : Placeholders)
    (dropout0 : R) (act : Tensor2 -> Tensor2)
    (bias0 featureless0 : bool) (kwargs : kwargs_t) (uids : gmap string Z)
    (a b : GraphConvolution) (ua ub : gmap string Z) :
  GraphConvolution_init glorot zeros input_dim output_dim placeholders dropout0
    true act bias0 featureless0 kwargs uids = (Ok a, ua) ->
  GraphConvolution_init glorot zeros input_dim output_dim placeholders dropout0
    false act bias0 featureless0 kwargs uids = (Ok b, ub) ->
  ua = ub /\
  forall X u, GraphConvolution_call a X u = GraphConvolution_call b X u.
Proof.
  unfold GraphConvolution_init.
  destruct (Layer_init "GraphConvolution" kwargs uids) as [[base|e] u1];
    [|discriminate].
  destruct (variable_scope_vars (name base)); [|discriminate].
  intros [= <- <-] [= <- <-]. split; reflexivity.
Qed.

Lemma GraphConvolution_ignores_sparse_inputs_witness :
  exists a b u,
    GraphConvolution_init glorot_example zeros_example 2 1 ph_example 0 true
      relu false false [] ∅ = (Ok a, u)
    /\ GraphConvolution_init glorot_example zeros_example 2 1 ph_example 0 false
         relu false false [] ∅ = (Ok b, u)
    /\ forall X u0, GraphConvolution_call a X u0 = GraphConvolution_call b X u0.
Proof.
  eexists _, _, _. split; [reflexivity|]. split; [reflexivity|].
  eapply proj2.
  apply (GraphConvolution_ignores_sparse_inputs glorot_example zeros_example
           2 1 ph_example 0 relu false false [] ∅); reflexivity.
Defined.

(** ** PathEmbedding: when the forward pass returns *)

Lemma PathEmbedding_call_inv (self : PathEmbedding) (X out : Tensor2) :
  PathEmbedding_call self X = Some out ->
  exists h m lens li fs st,
    gather (l2_normalize X) (paths self) = Some h /\
    length (idx self) = length (seqs self) /\
    reduce_max (seqs self) = Some m /\
    segment_sum (ones_like (idx self)) (idx self) = Some lens /\
    scatter_nd (zip (idx self) (seqs self)) h
      ((num_quests self * num_paths self)%nat, Z.to_nat (m + 1),
       link_state_dim self) = Some li /\
    flow_size self = Some fs /\
    dynamic_rnn (path_update self) (path_state_dim self) li fs lens = Some st /\
    reshape2 (concat st) (num_quests self) (num_paths self) = Some out.
Proof.
  unfold PathEmbedding_call. cbv zeta. intros H.
  destruct (gather _ _) as [h|]; simpl in H; [|discriminate].
  unfold stack_pairs in H.
  destruct (Nat.eqb_spec (length (idx self)) (length (seqs self))) as [E|E];
    simpl in H; [|discriminate].
  destruct (reduce_max _) as [m|]; simpl in H; [|discriminate].
  destruct (segment_sum _ _) as [lens|]; simpl in H; [|discriminate].
  destruct (scatter_nd _ h _) as [li|] eqn:Hli; simpl in H; [|discriminate].
  destruct (flow_size self) as [fs|]; simpl in H; [|discriminate].
  destruct (dynamic_rnn _ _ _ _ _) as [st|] eqn:Hst; simpl in H; [|discriminate].
  exists h, m, lens, li, fs, st. by repeat split.
Qed.

(** X11. Whatever the forward pass of [PathEmbedding] returns has shape
    [[num_quests, num_paths]]. *)
Theorem PathEmbedding_output_shape (self : PathEmbedding) (X out : Tensor2) :
  PathEmbedding_call self X = Some out ->
  dim0 out = num_quests self /\ dim1 out = num_paths self /\ well_shaped out.
Proof.
  intros H. apply PathEmbedding_call_inv in H
    as (h & m & lens & li & fs & st & _ & _ & _ & _ & _ & _ & _ & H).
  unfold reshape2 in H. destruct (_ =? _)%nat; [|discriminate].
  injection H as <-. repeat split; apply well_shaped_build2.
Qed.

Lemma PathEmbedding_output_shape_witness :
  exists out,
    PathEmbedding_call pe_example links3_example = Some out
    /\ dim0 out = num_quests pe_example /\ dim1 out = num_paths pe_example
    /\ well_shaped out.
Proof.
  eexists. split; [reflexivity|].
  apply (PathEmbedding_output_shape pe_example links3_example). reflexivity.
Defined.

Lemma gather_inv (X : Tensor2) (ps : list Z) :
  forall h, gather X ps = Some h ->
    length h = length ps /\
    Forall (fun l => in_range (dim0 X) l = true) ps /\
    (forall i l, ps !! i = Some l -> h !! i = rows X !! Z.to_nat l).
Proof.
  induction ps as [|l ps IH]; intros h H.
  - injection H as <-. repeat split; [constructor|]. intros i l Hl. inversion Hl.
  - change (gather X (l :: ps))
      with (y ← (if in_range (dim0 X) l then rows X !! Z.to_nat l else None);
            k ← gather X ps; mret (y :: k)) in H.
    destruct (in_range (dim0 X) l) eqn:Hl; [|discriminate].
    destruct (rows X !! Z.to_nat l) as [r|] eqn:Hr; [|discriminate].
    simpl in H. destruct (gather X ps) as [k|]; [|discriminate].
    injection H as <-. destruct (IH k eq_refl) as (Hlen & Hall & Hlook).
    split; [simpl; by rewrite Hlen|]. split; [by constructor|].
    intros [|i] l' Hl'; simpl in *.
    + injection Hl' as <-. by rewrite Hr.
    + by apply Hlook.
Qed.

Lemma scatter_nd_inv (indices : list (Z * Z)) (updates : list (list R))
    (n t d : nat) (out : list (list (list R))) :
  scatter_nd indices updates (n, t, d) = Some out ->
  length indices = length updates /\
  Forall (fun r => length r = d) updates /\
  Forall (fun ps => in_range n ps.1 = true /\ in_range t ps.2 = true) indices /\
  out = scatter_fold (zip indices updates)
          (replicate n (replicate t (replicate d 0%R))).
Proof.
  unfold scatter_nd. intros H.
  destruct (Nat.eqb_spec (length indices) (length updates)) as [E|E];
    [|discriminate].
  destruct (forallb _ updates) eqn:H1; [|discriminate].
  destruct (forallb _ indices) eqn:H2; [|discriminate].
  simpl in H. injection H as <-. split; [exact E|]. split; [|split; [|reflexivity]].
  - apply Forall_forall. intros r Hr. rewrite forallb_forall in H1.
    apply list_elem_of_In, H1 in Hr. by apply Nat.eqb_eq.
  - apply Forall_forall. intros ps Hps. rewrite forallb_forall in H2.
    apply list_elem_of_In, H2 in Hps. by apply andb_true_iff in Hps.
Qed.

Lemma dynamic_rnn_inv (cell : list R -> list R -> list R) (state_size : nat)
    (inputs : list (list (list R))) (initial_state : list (list R))
    (sequence_length : list Z) (st : list (list R)) :
  dynamic_rnn cell state_size inputs initial_state sequence_length = Some st ->
  length initial_state = length inputs /\
  Forall (fun h => length h = state_size) initial_state /\
  length sequence_length = length inputs /\
  st = zip_with (fun xh len => rnn_steps cell 0 xh.1 len xh.2)
                (zip inputs initial_state) sequence_length.
Proof.
  unfold dynamic_rnn. intros H.
  destruct (Nat.eqb_spec (length initial_state) (length inputs)) as [E1|E1];
    [|discriminate].
  destruct (forallb _ initial_state) eqn:H1; [|discriminate].
  destruct (Nat.eqb_spec (length sequence_length) (length inputs)) as [E2|E2];
    [|discriminate].
  simpl in H. injection H as <-. split; [exact E1|]. split; [|by split].
  apply Forall_forall. intros r Hr. rewrite forallb_forall in H1.
  apply list_elem_of_In, H1 in Hr. by apply Nat.eqb_eq.
Qed.

(** X12. The forward pass returns a result only if the three index arrays have
    one common non-zero length, every link index and path id is in range, the
    path ids are sorted and the last one is [num_quests * num_paths - 1], the
    positions are non-negative, and there is one initial state per path of
    width [path_state_dim]. *)
Theorem PathEmbedding_call_requires_valid_index
    (self : PathEmbedding) (X out : Tensor2) :
  PathEmbedding_call self X = Some out ->
  let n := (num_quests self * num_paths self)%nat in
  length (paths self) = length (idx self) /\
  length (idx self) = length (seqs self) /\
  idx self <> [] /\
  Forall (fun l => in_range (dim0 X) l = true) (paths self) /\
  Forall (fun p => in_range n p = true) (idx self) /\
  nondecreasing (idx self) = true /\
  last (idx self) = Some (Z.of_nat n - 1)%Z /\
  Forall (fun s => (0 <= s)%Z) (seqs self) /\
  (exists fs, flow_size self = Some fs /\ length fs = n /\
              Forall (fun h => length h = path_state_dim self) fs).
Proof.
  intros H n. apply PathEmbedding_call_inv in H
    as (h & m & lens & li & fs & st & Hh & Hlen & Hm & Hlens & Hli & Hfs & Hst & _).
  fold n in Hli.
  apply gather_inv in Hh as (Hhlen & Hpaths & _).
  cbn [dim0 l2_normalize] in Hpaths.
  pose proof (scatter_nd_length _ _ _ _ _ _ Hli) as Hlilen.
  apply scatter_nd_inv in Hli as (Hzl & _ & Hin & _).
  apply dynamic_rnn_inv in Hst as (Hfl & Hfw & Hll & _).
  pose proof (segment_sum_ones _ _ Hlens) as (Hnn & Hs & Hl).
  rewrite length_zip_with in Hzl.
  assert (Hne : idx self <> []).
  { intros E. rewrite E in Hlen. destruct (seqs self); discriminate. }
  assert (Hidx : Forall (fun p => in_range n p = true) (idx self)
                 /\ Forall (fun s => (0 <= s)%Z) (seqs self)).
  { split; apply Forall_forall; intros z Hz.
    - apply list_elem_of_lookup in Hz as [i Hi].
      destruct (lookup_lt_is_Some_2 (seqs self) i) as [s Hsi].
      { apply lookup_lt_Some in Hi. lia. }
      rewrite Forall_forall in Hin.
      destruct (Hin (z, s)) as [Hz _]; [|exact Hz].
      eapply list_elem_of_lookup_2. apply lookup_zip_Some. eauto.
    - apply list_elem_of_lookup in Hz as [i Hi].
      destruct (lookup_lt_is_Some_2 (idx self) i) as [p Hpi].
      { apply lookup_lt_Some in Hi. lia. }
      rewrite Forall_forall in Hin.
      destruct (Hin (p, z)) as [_ Hz]; [|simpl in Hz; unfold in_range in Hz; lia].
      eapply list_elem_of_lookup_2. apply lookup_zip_Some. eauto. }
  destruct Hidx as [Hidx Hseqs].
  repeat split; try done.
  - lia.
  - destruct (last (idx self)) as [s|] eqn:Hlast.
    + f_equal. apply (f_equal length) in Hl.
      rewrite segment_fold_length, length_replicate in Hl.
      assert (0 <= s)%Z; [|lia].
      rewrite Forall_forall in Hnn. apply Hnn.
      apply last_Some in Hlast as [l' ->]. apply elem_of_app. right. by left.
    + by apply last_None in Hlast.
  - exists fs. split; [exact Hfs|]. split; [lia|exact Hfw].
Qed.

Lemma PathEmbedding_call_requires_valid_index_witness :
  exists out,
    PathEmbedding_call pe_example links3_example = Some out
    /\ length (paths pe_example) = length (idx pe_example)
    /\ last (idx pe_example)
       = Some (Z.of_nat (num_quests pe_example * num_paths pe_example) - 1)%Z.
Proof.
  eexists. split; [reflexivity|].
  assert (H := fun out E => PathEmbedding_call_requires_valid_index
                              pe_example links3_example out E).
  cbv zeta in H. split; [apply (H _ eq_refl)|apply (H _ eq_refl)].
Defined.

(** X13. A [PathEmbedding] built with a [flow_size] whose length is not
    [num_quests * num_paths], or with [path_state_dim <> 1], never produces a
    result. *)
Theorem PathEmbedding_init_shape_errors
    (nq np lsd psd : nat) (ph : Placeholders)
    (gru : list R -> list R -> list R) (act : Tensor2 -> Tensor2)
    (kwargs : kwargs_t) (uids uids' : gmap string Z) (self : PathEmbedding) :
  PathEmbedding_init nq np lsd psd ph gru act kwargs uids = (Ok self, uids') ->
  length (ph_flow_size ph) <> (nq * np)%nat \/ psd <> 1%nat ->
  forall X : Tensor2, PathEmbedding_call self X = None.
Proof.
  unfold PathEmbedding_init.
  destruct (Layer_init "PathEmbedding" kwargs uids) as [[base|e] u1];
    [|discriminate].
  intros [= <- <-] Hbad X.
  destruct (PathEmbedding_call _ X) as [out|] eqn:H; [exfalso|reflexivity].
  apply PathEmbedding_call_inv in H
    as (h & m & lens & li & fs & st & _ & Hlen & Hm & Hlens & Hli & Hfs & Hst & _).
  cbn [flow_size idx seqs num_quests num_paths path_state_dim] in *.
  unfold reshape_column in Hfs.
  destruct (Nat.eqb_spec (length (ph_flow_size ph)) (nq * np)) as [E|E];
    [|discriminate].
  injection Hfs as <-. destruct Hbad as [Hbad|Hbad]; [contradiction|].
  apply scatter_nd_length in Hli.
  apply dynamic_rnn_inv in Hst as (Hfl & Hfw & Hll & _).
  apply segment_sum_ones in Hlens as (Hnn & _ & Hl).
  destruct (ph_flow_size ph) as [|v flow].
  - simpl in Hfl. apply (f_equal length) in Hl.
    rewrite segment_fold_length, length_replicate in Hl.
    destruct (ph_index ph) as [|q qs].
    + destruct (ph_sequences ph); discriminate.
    + destruct (last (q :: qs)) as [s|] eqn:Hlast;
        [|by apply last_None in Hlast].
      assert (0 <= s)%Z; [|lia].
      rewrite Forall_forall in Hnn. apply Hnn.
      apply last_Some in Hlast as [l' ->]. apply elem_of_app. right. by left.
  - inversion Hfw; subst. simpl in *. congruence.
Qed.

Lemma PathEmbedding_init_shape_errors_witness :
  exists self u,
    PathEmbedding_init 1 3 1 1 ph_example cell_example relu [] ∅ = (Ok self, u)
    /\ forall X : Tensor2, PathEmbedding_call self X = None.
Proof.
  eexists _, _. split; [reflexivity|].
  eapply (PathEmbedding_init_shape_errors 1 3 1 1 ph_example cell_example relu
            [] ∅); [reflexivity|].
  left. simpl. lia.
Defined.

Lemma sum_squares_scale2 (c : R) (x : Tensor2) :
  sum_squares (scale2 c x) = (sum_squares x * (c * c))%R.
Proof.
  unfold sum_squares, scale2. simpl. rewrite map_map, <- Rsum_map_scale.
  apply Rsum_map_ext_in. intros r _.
  rewrite map_map, <- Rsum_map_scale.
  apply Rsum_map_ext_in. intros v _. ring.
Qed.

Lemma l2_normalize_scale2 (c : R) (x : Tensor2) :
  (0 < c)%R ->
  (epsilon <= sum_squares x)%R ->
  (epsilon <= sum_squares x * (c * c))%R ->
  l2_normalize (scale2 c x) = l2_normalize x.
Proof.
  intros Hc H1 H2. pose proof epsilon_bounds as [He _].
  unfold l2_normalize. fold (sum_squares (scale2 c x)). fold (sum_squares x).
  rewrite sum_squares_scale2, !Rmax_left by assumption.
  set (s := sum_squares x) in *.
  assert (Hs : (0 < sqrt s)%R) by (apply sqrt_lt_R0; lra).
  assert (Hq : sqrt (s * (c * c)) = (sqrt s * c)%R).
  { rewrite sqrt_mult by nra. rewrite sqrt_square by lra. reflexivity. }
  rewrite Hq. unfold scale2. cbn [dim0 dim1 rows]. f_equal.
  rewrite map_map. apply map_ext. intros r.
  rewrite map_map. apply map_ext. intros v. field. lra.
Qed.

(** X14. Because the link embeddings are normalised as a whole, multiplying
    them by a positive constant does not change the result of the forward
    pass (as long as the sum of squares stays at or above [epsilon]). *)
Theorem PathEmbedding_invariant_under_rescaling
    (self : PathEmbedding) (c : R) (X : Tensor2) :
  (0 < c)%R ->
  (epsilon <= sum_squares X)%R ->
  (epsilon <= sum_squares X * (c * c))%R ->
  PathEmbedding_call self (scale2 c X) = PathEmbedding_call self X.
Proof.
  intros Hc H1 H2. unfold PathEmbedding_call. cbv zeta.
  by rewrite (l2_normalize_scale2 c X Hc H1 H2).
Qed.

Lemma PathEmbedding_invariant_under_rescaling_witness :
  PathEmbedding_call pe_example (scale2 2 links3_example)
  = PathEmbedding_call pe_example links3_example.
Proof.
  pose proof epsilon_bounds as [_ He].
  apply PathEmbedding_invariant_under_rescaling.
  - lra.
  - unfold sum_squares, links3_example. simpl. lra.
  - unfold sum_squares, links3_example. simpl. lra.
Defined.

(** ** PathEmbedding: what the forward pass computes *)

Lemma PathEmbedding_call_states
    (self : PathEmbedding) (flow : list R) (X : Tensor2) :
  valid_inputs self flow X ->
  last (idx self)
  = Some (Z.of_nat (num_quests self * num_paths self) - 1)%Z ->
  exists h m li out,
    gather (l2_normalize X) (paths self) = Some h /\
    reduce_max (seqs self) = Some m /\
    scatter_nd (zip (idx self) (seqs self)) h
      ((num_quests self * num_paths self)%nat, Z.to_nat (m + 1),
       link_state_dim self) = Some li /\
    PathEmbedding_call self X = Some out /\
    forall p, (p < num_quests self * num_paths self)%nat ->
      exists xs,
        li !! p = Some xs /\
        get2 out (p / num_paths self) (p mod num_paths self)
        = nth 0 (rnn_steps (path_update self) 0 xs
                   (count_steps (Z.of_nat p) (idx self)) [nth p flow 0%R]) 0%R.
Proof.
  intros (Hwf & Hd1 & Hl1 & Hl2 & Hpaths & Hidx & Hsorted & Hseqs & Hflow
          & Hflen & Hpsd & Hcell) Hlast.
  set (n := (num_quests self * num_paths self)%nat) in *.
  unfold PathEmbedding_call. cbv zeta. fold n.
  destruct (gather_ok (l2_normalize X) (paths self)
              (well_shaped_l2_normalize X Hwf) Hpaths)
    as (h & Hh & Hhlen & Hhrows).
  rewrite Hh. unfold stack_pairs. rewrite Hl2, Nat.eqb_refl.
  destruct (reduce_max (seqs self)) as [m|] eqn:Hm; cycle 1.
  { exfalso. destruct (seqs self); [|discriminate].
    destruct (idx self); [discriminate|discriminate]. }
  pose proof (reduce_max_ge _ _ Hm) as Hmax.
  assert (Hnn : Forall (fun s => (0 <= s)%Z) (idx self)).
  { eapply Forall_impl; [exact Hidx|]. intros q Hq. unfold in_range in Hq. lia. }
  rewrite (segment_sum_ok _ Hnn Hsorted), Hlast.
  replace (Z.to_nat (Z.of_nat n - 1 + 1)) with n by lia.
  set (lens := segment_fold (idx self) (replicate n 0%Z)).
  assert (Hlens : length lens = n).
  { subst lens. rewrite segment_fold_length. apply length_replicate. }
  destruct (scatter_nd_ok (zip (idx self) (seqs self)) h n
              (Z.to_nat (m + 1)) (link_state_dim self))
    as (li & Hli & Hlilen).
  { rewrite length_zip_with. lia. }
  { rewrite <- Hd1. exact Hhrows. }
  { apply (Forall_zip_both (fun q => in_range n q = true)
             (fun s => in_range (Z.to_nat (m + 1)) s = true)); [exact Hidx|].
    rewrite Forall_forall in Hseqs, Hmax. apply Forall_forall. intros s Hs.
    specialize (Hseqs s Hs). specialize (Hmax s Hs). unfold in_range.
    apply andb_true_iff. split; [apply Z.leb_le|apply Z.ltb_lt]; lia. }
  simpl. rewrite Hli. simpl.
  rewrite Hflow. unfold reshape_column. rewrite Hflen, Nat.eqb_refl. simpl.
  rewrite dynamic_rnn_ok; cycle 1.
  { rewrite length_map. lia. }
  { rewrite Hpsd. apply Forall_forall. intros s Hs.
    apply list_elem_of_In, in_map_iff in Hs as (v & <- & _). reflexivity. }
  { lia. }
  simpl.
  set (states := zip_with _ _ lens).
  assert (Hst1 : Forall (fun s => length s = 1%nat) states).
  { apply Forall_forall. intros s Hs. subst states.
    apply elem_of_lookup_zip_with in Hs as (i & [xs h0] & len & -> & Hxh & _).
    apply lookup_zip_Some in Hxh as [_ Hh0]. simpl.
    apply (rnn_steps_length _ 1%nat); [exact Hcell|].
    apply list_lookup_fmap_Some in Hh0 as (v & -> & _). reflexivity. }
  assert (Hstlen : length states = n).
  { subst states. rewrite length_zip_with, length_zip_with, length_map. lia. }
  destruct (reshape2 (concat states) (num_quests self) (num_paths self))
    as [out|] eqn:Hout; cycle 1.
  { exfalso. unfold reshape2 in Hout.
    rewrite (concat_singletons _ Hst1), length_map, Hstlen in Hout.
    fold n in Hout. rewrite Nat.eqb_refl in Hout. discriminate. }
  exists h, m, li, out.
  split; [reflexivity|]. split; [reflexivity|]. split; [exact Hli|].
  split; [reflexivity|].
  intros p Hp.
  destruct (lookup_lt_is_Some_2 li p) as [xs Hxs]; [lia|].
  destruct (lookup_lt_is_Some_2 flow p) as [v Hv]; [lia|].
  exists xs. split; [exact Hxs|].
  assert (Hlp : lens !! p = Some (count_steps (Z.of_nat p) (idx self))).
  { subst lens. rewrite segment_fold_lookup by exact Hnn.
    rewrite lookup_replicate_2 by exact Hp. reflexivity. }
  assert (Hstp : states !! p
                 = Some (rnn_steps (path_update self) 0 xs
                           (count_steps (Z.of_nat p) (idx self)) [v])).
  { subst states. rewrite lookup_zip_with.
    assert (Hz : zip li (map (fun x => [x]) flow) !! p = Some (xs, [v])).
    { apply lookup_zip_Some. split; [exact Hxs|].
      by rewrite list_lookup_fmap, Hv. }
    rewrite Hz, Hlp. reflexivity. }
  rewrite (get2_reshape2 _ _ _ p _ Hout) by exact Hp.
  rewrite (concat_singletons _ Hst1).
  rewrite (nth_map_default _ states [] 0%R p) by reflexivity.
  rewrite (nth_lookup_Some _ _ _ _ Hstp).
  by rewrite (nth_lookup_Some _ _ _ _ Hv).
Qed.

Lemma slot_alter (f : list R -> list R) (out : list (list (list R)))
    (p' s' p s : nat) :
  slot (alter (alter f s') p' out) p s
  = if decide (p' = p /\ s' = s) then f <$> slot out p s else slot out p s.
Proof.
  unfold slot. rewrite list_lookup_alter.
  destruct (decide (p' = p)) as [->|Hp].
  - destruct (out !! p) as [r|]; simpl.
    + rewrite list_lookup_alter.
      destruct (decide (s' = s)) as [->|Hs].
      * rewrite decide_True by done. reflexivity.
      * rewrite decide_False by tauto. reflexivity.
    + by destruct (decide _).
  - rewrite decide_False by tauto. reflexivity.
Qed.

Lemma scatter_fold_cons (a : Z * Z * list R) (l : list (Z * Z * list R))
    (init : list (list (list R))) :
  scatter_fold (a :: l) init
  = scatter_fold l (alter (alter (fun old => zip_with Rplus old a.2)
                                 (Z.to_nat a.1.2))
                          (Z.to_nat a.1.1) init).
Proof. reflexivity. Qed.

Lemma scatter_fold_slot_other (p s : nat) (l : list (Z * Z * list R)) :
  forall init,
    Forall (fun pu => ~ (Z.to_nat pu.1.1 = p /\ Z.to_nat pu.1.2 = s)) l ->
    slot (scatter_fold l init) p s = slot init p s.
Proof.
  induction l as [|a l IH]; intros init Hall; [reflexivity|].
  inversion Hall as [|? ? Ha Hl]; subst.
  rewrite scatter_fold_cons, (IH _ Hl), slot_alter.
  by rewrite decide_False.
Qed.

Lemma scatter_fold_slot_unique (p s : nat) (row : list R)
    (l : list (Z * Z * list R)) :
  forall (init : list (list (list R))) (i : nat),
    NoDup (map fst l) ->
    Forall (fun pu => (0 <= pu.1.1)%Z /\ (0 <= pu.1.2)%Z) l ->
    l !! i = Some ((Z.of_nat p, Z.of_nat s), row) ->
    slot (scatter_fold l init) p s
    = (fun old => zip_with Rplus old row) <$> slot init p s.
Proof.
  induction l as [|a l IH]; intros init i Hnd Hnn Hi; [inversion Hi|].
  inversion Hnn as [|? ? Ha Hl]; subst.
  simpl in Hnd. apply NoDup_cons in Hnd as [Hnotin Hnd].
  rewrite scatter_fold_cons. destruct i as [|i]; simpl in Hi.
  - injection Hi as ->. simpl in *.
    rewrite scatter_fold_slot_other, slot_alter.
    + rewrite !Nat2Z.id. by rewrite decide_True.
    + apply Forall_forall. intros pu Hpu [H1 H2].
      rewrite Forall_forall in Hl. destruct (Hl pu Hpu) as [H3 H4].
      apply Hnotin. apply list_elem_of_fmap. exists pu. split; [|exact Hpu].
      destruct pu as [[q r] w]. simpl in *. f_equal; lia.
  - rewrite (IH _ i Hnd Hl Hi), slot_alter.
    rewrite decide_False; [reflexivity|].
    intros [H1 H2]. apply Hnotin.
    apply list_elem_of_fmap. exists ((Z.of_nat p, Z.of_nat s), row).
    split; [|eapply list_elem_of_lookup_2; exact Hi].
    destruct a as [[q r] w]. simpl in *. f_equal; lia.
Qed.

Lemma zip_with_Rplus_zeros (row : list R) :
  zip_with Rplus (replicate (length row) 0%R) row = row.
Proof.
  induction row as [|v row IH]; [reflexivity|].
  simpl. rewrite IH, Rplus_0_l. reflexivity.
Qed.

Lemma rnn_steps_foldl (cell : list R -> list R -> list R) (len : Z)
    (xs : list (list R)) :
  forall (time : nat) (h : list R),
    rnn_steps cell time xs len h
    = fold_left (fun h x => cell x h)
                (take (Z.to_nat (len - Z.of_nat time)) xs) h.
Proof.
  induction xs as [|x xs IH]; intros time h.
  - by rewrite take_nil.
  - simpl rnn_steps. rewrite IH.
    destruct (Z.ltb_spec (Z.of_nat time) len) as [Hlt|Hge].
    + replace (Z.to_nat (len - Z.of_nat time))
        with (S (Z.to_nat (len - Z.of_nat (S time)))) by lia.
      reflexivity.
    + replace (Z.to_nat (len - Z.of_nat time)) with 0%nat by lia.
      replace (Z.to_nat (len - Z.of_nat (S time))) with 0%nat by lia.
      reflexivity.
Qed.

Lemma fold_left_map {A B C : Type} (f : A -> B -> A) (g : C -> B)
    (l : list C) :
  forall a, fold_left f (map g l) a = fold_left (fun a c => f a (g c)) l a.
Proof. induction l as [|c l IH]; intros a; [reflexivity|]. simpl. apply IH. Qed.

(** X15. For valid inputs without scatter collisions, the entry of the output
    for path [p] is the state obtained from [flow_size[p]] by applying the
    recurrent cell to the normalised embeddings of the links of [p], in
    sequence order, once per step of [p]: padding slots and the steps of
    other paths do not influence it. *)
Theorem PathEmbedding_state_is_fold_over_path_steps
    (self : PathEmbedding) (flow : list R) (X : Tensor2) (p : nat)
    (steps : list nat) :
  valid_inputs self flow X ->
  last (idx self)
  = Some (Z.of_nat (num_quests self * num_paths self) - 1)%Z ->
  NoDup (zip (idx self) (seqs self)) ->
  (p < num_quests self * num_paths self)%nat ->
  steps_of_path self p steps ->
  count_steps (Z.of_nat p) (idx self) = Z.of_nat (length steps) ->
  exists out,
    PathEmbedding_call self X = Some out /\
    get2 out (p / num_paths self) (p mod num_paths self)
    = nth 0 (run_steps self X steps [nth p flow 0%R]) 0%R.
Proof.
  intros Hvalid Hlast Hnd Hp Hsteps Hcount.
  destruct (PathEmbedding_call_states self flow X Hvalid Hlast)
    as (h & m & li & out & Hh & Hm & Hli & Hcall & Hst).
  destruct Hvalid as (Hwf & Hd1 & Hl1 & Hl2 & _).
  exists out. split; [exact Hcall|].
  destruct (Hst p Hp) as (xs & Hxs & ->). f_equal.
  rewrite Hcount, rnn_steps_foldl.
  replace (Z.to_nat (Z.of_nat (length steps) - Z.of_nat 0)) with (length steps)
    by lia.
  unfold run_steps.
  rewrite <- (fold_left_map (fun h x => path_update self x h)
                (step_input self X) steps).
  f_equal.
  apply gather_inv in Hh as (Hhlen & _ & Hhlook).
  pose proof (reduce_max_ge _ _ Hm) as Hmax.
  apply scatter_nd_inv in Hli as (Hzl & Hrows & Hin & ->).
  apply list_eq. intros t.
  destruct (decide (t < length steps)%nat) as [Ht|Ht]; cycle 1.
  { rewrite lookup_take_ge by lia.
    symmetry. apply lookup_ge_None_2. rewrite length_map. lia. }
  rewrite lookup_take_lt by exact Ht.
  destruct (lookup_lt_is_Some_2 steps t Ht) as [i Hi].
  change (map (step_input self X) steps) with (step_input self X <$> steps).
  rewrite list_lookup_fmap, Hi. simpl.
  destruct (Hsteps t i Hi) as [Hidxi Hseqi].
  assert (Hilt : (i < length (idx self))%nat)
    by (eapply lookup_lt_Some; exact Hidxi).
  destruct (lookup_lt_is_Some_2 h i) as [row Hrow]; [lia|].
  destruct (lookup_lt_is_Some_2 (paths self) i) as [l Hl]; [lia|].
  assert (Hrowlen : length row = link_state_dim self).
  { rewrite Forall_forall in Hrows. apply Hrows.
    eapply list_elem_of_lookup_2. exact Hrow. }
  assert (Hslot : slot (scatter_fold (zip (zip (idx self) (seqs self)) h)
                          (replicate (num_quests self * num_paths self)
                             (replicate (Z.to_nat (m + 1))
                                (replicate (link_state_dim self) 0%R)))) p t
                  = Some row).
  { rewrite (scatter_fold_slot_unique p t row _ _ i).
    - unfold slot. rewrite lookup_replicate_2 by exact Hp. simpl.
      rewrite lookup_replicate_2.
      + simpl. rewrite <- Hrowlen. by rewrite zip_with_Rplus_zeros.
      + rewrite Forall_forall in Hmax.
        assert (Z.of_nat t <= m)%Z; [|lia].
        apply Hmax. eapply list_elem_of_lookup_2. exact Hseqi.
    - change (map fst (zip (zip (idx self) (seqs self)) h))
        with ((zip (zip (idx self) (seqs self)) h).*1).
      rewrite fst_zip by lia. exact Hnd.
    - apply Forall_forall. intros [[q r] w] Hqr. simpl.
      apply elem_of_zip_l in Hqr. rewrite Forall_forall in Hin.
      destruct (Hin _ Hqr) as [H1 H2]. simpl in H1, H2.
      unfold in_range in H1, H2. lia.
    - apply lookup_zip_Some. split; [|exact Hrow].
      by apply lookup_zip_Some. }
  unfold slot in Hslot. rewrite Hxs in Hslot. simpl in Hslot.
  rewrite Hslot. f_equal. unfold step_input.
  rewrite (nth_lookup_Some _ _ _ _ Hl).
  rewrite (Hhlook i l Hl) in Hrow.
  by rewrite (nth_lookup_Some _ _ _ _ Hrow).
Qed.

Lemma pe_example_valid : valid_inputs pe_example [5%R; 7%R] links3_example.
Proof.
  unfold valid_inputs, well_shaped. simpl.
  repeat split; try reflexivity; repeat constructor; try lia.
  intros x h Hh. by rewrite cell_example_length.
Defined.

Lemma PathEmbedding_state_is_fold_over_path_steps_witness :
  exists out,
    PathEmbedding_call pe_example links3_example = Some out /\
    get2 out (0 / num_paths pe_example) (0 mod num_paths pe_example)
    = nth 0 (run_steps pe_example links3_example [0; 1]%nat
               [nth 0 [5%R; 7%R] 0%R]) 0%R.
Proof.
  apply (PathEmbedding_state_is_fold_over_path_steps
           pe_example [5%R; 7%R] links3_example 0 [0; 1]%nat pe_example_valid).
  - reflexivity.
  - apply (bool_decide_unpack _). vm_compute. exact I.
  - simpl. lia.
  - intros [|[|t]] i Hi; simpl in Hi; try discriminate;
      injection Hi as <-; split; reflexivity.
  - reflexivity.
Defined.

(** ** GraphConvolution, continued *)

Lemma all_chars_app (p : ascii -> bool) (a b : string) :
  all_chars p (a +:+ b) = all_chars p a && all_chars p b.
Proof.
  induction a as [|c a IH]; [reflexivity|].
  simpl. fold (a +:+ b). rewrite IH. apply andb_assoc.
Qed.

Lemma scope_chars_pretty_N_go (x : N) :
  forall s, all_chars scope_next_char s = true ->
            all_chars scope_next_char (pretty_N_go x s) = true.
Proof.
  induction (N.lt_wf_0 x) as [x _ IH]; intros s Hs.
  assert (x = 0 \/ 0 < x)%N as [->|Hx] by lia.
  - by rewrite pretty_N_go_0.
  - rewrite pretty_N_go_step by done. apply IH.
    { by apply N.div_lt. }
    simpl. rewrite Hs. unfold pretty_N_char. by repeat case_match.
Qed.

Lemma scope_chars_str (n : Z) : all_chars scope_next_char (str n) = true.
Proof.
  unfold str, pretty, pretty_Z. destruct n as [|p|p]; [reflexivity| |].
  - unfold pretty, pretty_positive, pretty, pretty_N.
    case_decide; [reflexivity|]. by apply scope_chars_pretty_N_go.
  - unfold pretty, pretty_positive, pretty, pretty_N.
    case_decide; [reflexivity|]. simpl. by apply scope_chars_pretty_N_go.
Qed.

Lemma default_scope_name_valid (layer : string) (n : Z) :
  valid_scope_name layer = true ->
  valid_scope_name ((layer +:+ "_" +:+ str n) +:+ "_vars") = true.
Proof.
  destruct layer as [|c layer]; [discriminate|]. simpl.
  intros [Hc Hl]%andb_true_iff. rewrite Hc. simpl.
  fold ("_" +:+ str n). fold (layer +:+ "_" +:+ str n).
  fold ((layer +:+ "_" +:+ str n) +:+ "_vars").
  rewrite !all_chars_app, Hl, scope_chars_str. reflexivity.
Qed.

Lemma Layer_init_name (cls : string) (kwargs : kwargs_t) (uids : gmap string Z) :
  Forall (fun k => k ∈ allowed_kwargs) (kwargs_keys kwargs) ->
  exists base uids1,
    Layer_init cls kwargs uids = (Ok base, uids1) /\ vars base = ∅ /\
    if truthy (kwargs_get kwargs "name" PyNone)
    then name base = kwargs_get kwargs "name" PyNone /\ uids1 = uids
    else exists n, name base = PyStr (lower cls +:+ "_" +:+ str n).
Proof.
  intros H. unfold Layer_init. rewrite (proj2 (check_kwargs_ok _) H).
  destruct (truthy _); [by eexists _, _|].
  destruct (get_layer_uid _ _) as [n u]. eexists _, _.
  split; [reflexivity|]. split; [reflexivity|]. by exists n.
Qed.

Lemma falsy_name_accepted (name0 : pyval) :
  truthy name0 = false -> scope_name_accepted name0 = true.
Proof.
  destruct name0 as [|b|z|s]; cbn [truthy scope_name_accepted]; intros Ht.
  - reflexivity.
  - by rewrite Ht.
  - by rewrite Ht.
  - apply negb_false_iff in Ht. by rewrite Ht.
Qed.

Lemma variable_scope_vars_accepted (cls : string) (name0 name1 : pyval) :
  valid_scope_name (lower cls) = true ->
  (if truthy name0 then name1 = name0
   else exists n, name1 = PyStr (lower cls +:+ "_" +:+ str n)) ->
  variable_scope_vars name1
  = if scope_name_accepted name0 then Ok tt
    else match variable_scope_vars name0 with
         | Ok _ => Err TypeError
         | Err e => Err e
         end.
Proof.
  intros Hcls Hname. destruct (truthy name0) eqn:Ht.
  - subst name1. destruct name0 as [|b|z|s];
      cbn [truthy scope_name_accepted variable_scope_vars] in *.
    + discriminate.
    + by rewrite Ht.
    + by rewrite Ht.
    + apply negb_true_iff in Ht. rewrite Ht.
      destruct (valid_scope_name (s +:+ "_vars")); reflexivity.
  - destruct Hname as [n ->].
    replace (scope_name_accepted name0) with true.
    + unfold variable_scope_vars.
      by rewrite (default_scope_name_valid _ _ Hcls).
    + symmetry. by apply falsy_name_accepted.
Qed.

Lemma invalid_char_invalid_scope_name (s : string) :
  all_chars scope_next_char s = false -> valid_scope_name s = false.
Proof.
  destruct s as [|c s]; [discriminate|].
  cbn [all_chars valid_scope_name].
  destruct (all_chars scope_next_char s); [|by rewrite !andb_false_r].
  rewrite !andb_true_r. unfold scope_next_char, scope_first_char.
  destruct (is_alnum c); [discriminate|].
  destruct (Ascii.eqb c "."); [|reflexivity].
  cbn [orb]. rewrite orb_true_r. discriminate.
Qed.

(** X10. With initialisers that return tensors of the requested shapes, a
    shape-preserving activation and valid keywords, [GraphConvolution.__init__]
    succeeds when the [name] keyword is falsy or a string that makes a valid
    scope name: it yields a layer whose [weights] is [glorot([input_dim,
    output_dim])], whose [bias] variable exists exactly when [bias=True], and
    whose dropout is switched off exactly when the [dropout] argument is 0.
    A truthy [name] that is not a string raises [TypeError], a string with a
    character that no scope name may contain raises [ValueError]; both leave
    the counter as it was. *)
Theorem GraphConvolution_init_establishes_shapes
    (glorot : nat -> nat -> Tensor2) (zeros : nat -> list R)
    (input_dim output_dim : nat) (placeholders : Placeholders)
    (dropout0 : R) (sparse_inputs0 : bool) (act : Tensor2 -> Tensor2)
    (bias0 featureless0 : bool) (kwargs : kwargs_t) (uids : gmap string Z) :
  (forall a b, dim0 (glorot a b) = a /\ dim1 (glorot a b) = b) ->
  (forall n, length (zeros n) = n) ->
  shape_preserving act ->
  Forall (fun k => k ∈ allowed_kwargs) (kwargs_keys kwargs) ->
  (scope_name_accepted (kwargs_get kwargs "name" PyNone) = true ->
   exists self uids',
     GraphConvolution_init glorot zeros input_dim output_dim placeholders
       dropout0 sparse_inputs0 act bias0 featureless0 kwargs uids
     = (Ok self, uids') /\
     gc_shapes self input_dim output_dim /\
     lookup_var2 (vars (gc_layer self)) "weights"
     = Some (glorot input_dim output_dim) /\
     (vars (gc_layer self) !! "bias"
      = if bias0 then Some (Var1 (zeros output_dim)) else None) /\
     support self = ph_support placeholders /\
     featureless self = featureless0 /\ bias self = bias0 /\
     gc_dropout self
     = (if Req_dec_T dropout0 0 then None else Some (ph_dropout placeholders)))
  /\ (truthy (kwargs_get kwargs "name" PyNone) = true ->
      (forall s, kwargs_get kwargs "name" PyNone <> PyStr s) ->
      GraphConvolution_init glorot zeros input_dim output_dim placeholders
        dropout0 sparse_inputs0 act bias0 featureless0 kwargs uids
      = (Err TypeError, uids))
  /\ (forall s,
        kwargs_get kwargs "name" PyNone = PyStr s ->
        all_chars scope_next_char (s +:+ "_vars") = false ->
        GraphConvolution_init glorot zeros input_dim output_dim placeholders
          dropout0 sparse_inputs0 act bias0 featureless0 kwargs uids
        = (Err (ValueError ("'" +:+ s +:+ "_vars' is not a valid scope name")),
           uids)).
Proof.
  intros Hg Hz Hact Hkeys. unfold GraphConvolution_init.
  destruct (Layer_init_name "GraphConvolution" kwargs uids Hkeys)
    as (base & u1 & Hinit & Hvars & Hname).
  rewrite Hinit.
  assert (Hscope := variable_scope_vars_accepted "GraphConvolution"
                      (kwargs_get kwargs "name" PyNone) (name base)
                      eq_refl).
  split; [|split].
  - intros Hacc. rewrite Hacc in Hscope.
    rewrite Hscope
      by (destruct (truthy _); [exact (proj1 Hname)|exact Hname]).
    eexists _, _. split; [reflexivity|]. simpl. rewrite Hvars.
    assert (Hw : forall b : bool,
               lookup_var2 (if b then <["bias" := Var1 (zeros output_dim)]>
                                         (<["weights" := Var2 (glorot input_dim output_dim)]> ∅)
                            else <["weights" := Var2 (glorot input_dim output_dim)]> ∅)
                           "weights"
               = Some (glorot input_dim output_dim)).
    { intros [|]; unfold lookup_var2.
      - rewrite lookup_insert_ne by done. by rewrite lookup_insert_eq.
      - by rewrite lookup_insert_eq. }
    split; [|split; [apply Hw|split; [|split; [reflexivity|split; [reflexivity|split; [reflexivity|]]]]]].
    + split; [|split; [|exact Hact]].
      * exists (glorot input_dim output_dim). split; [apply Hw|apply Hg].
      * simpl. intros ->. exists (zeros output_dim). split; [|apply Hz].
        unfold lookup_var1. by rewrite lookup_insert_eq.
    + destruct bias0.
      * by rewrite lookup_insert_eq.
      * rewrite lookup_insert_ne by done. apply lookup_empty.
    + unfold float_truthy. by destruct (Req_dec_T dropout0 0).
  - intros Ht Hns. rewrite Ht in Hname. destruct Hname as [-> ->].
    destruct (kwargs_get kwargs "name" PyNone) as [|b|z|s];
      try reflexivity.
    by destruct (Hns s).
  - intros s Hs Hbad. rewrite Hs in Hname.
    assert (Ht : truthy (PyStr s) = true).
    { destruct s as [|c s]; [|reflexivity]. discriminate. }
    rewrite Ht in Hname. destruct Hname as [-> ->].
    unfold variable_scope_vars.
    by rewrite (invalid_char_invalid_scope_name _ Hbad).
Qed.

Lemma GraphConvolution_init_establishes_shapes_witness :
  (exists self uids',
     GraphConvolution_init glorot_example zeros_example 2 1 ph_example 0 false
       relu true false [("name", PyStr "gc_in")] ∅ = (Ok self, uids') /\
     gc_shapes self 2 1 /\
     lookup_var2 (vars (gc_layer self)) "weights" = Some (glorot_example 2 1) /\
     (vars (gc_layer self) !! "bias"
      = if true then Some (Var1 (zeros_example 1)) else None) /\
     support self = ph_support ph_example /\
     featureless self = false /\ bias self = true /\
     gc_dropout self
     = (if Req_dec_T 0 0 then None else Some (ph_dropout ph_example)))
  /\ GraphConvolution_init glorot_example zeros_example 2 1 ph_example 0
       false relu true false [("name", PyInt 5)] ∅ = (Err TypeError, ∅)
  /\ GraphConvolution_init glorot_example zeros_example 2 1 ph_example 0
       false relu true false [("name", PyStr "my layer")] ∅
     = (Err (ValueError ("'" +:+ "my layer"
                         +:+ "_vars' is not a valid scope name")), ∅).
Proof.
  split; [|split].
  - refine (proj1 (GraphConvolution_init_establishes_shapes
                     glorot_example zeros_example 2 1 ph_example 0 false relu
                     true false [("name", PyStr "gc_in")] ∅ _ _ _ _) _).
    + intros a b. by split.
    + intros n. apply length_replicate.
    + apply relu_shape_preserving.
    + apply (bool_decide_unpack _). vm_compute. exact I.
    + reflexivity.
  - refine (proj1 (proj2 (GraphConvolution_init_establishes_shapes
                     glorot_example zeros_example 2 1 ph_example 0 false relu
                     true false [("name", PyInt 5)] ∅ _ _ _ _)) _ _).
    + intros a b. by split.
    + intros n. apply length_replicate.
    + apply relu_shape_preserving.
    + apply (bool_decide_unpack _). vm_compute. exact I.
    + reflexivity.
    + intros s. discriminate.
  - refine (proj2 (proj2 (GraphConvolution_init_establishes_shapes
                     glorot_example zeros_example 2 1 ph_example 0 false relu
                     true false [("name", PyStr "my layer")] ∅ _ _ _ _))
                  "my layer" _ _).
    + intros a b. by split.
    + intros n. apply length_replicate.
    + apply relu_shape_preserving.
    + apply (bool_decide_unpack _). vm_compute. exact I.
    + reflexivity.
    + reflexivity.
Defined.

(** A number or an invalid scope name as [name] makes the constructor
    raise; no name at all gives the default name, which is accepted. *)
Example GraphConvolution_init_names :
  GraphConvolution_init glorot_example zeros_example 2 1 ph_example 0 false
    relu true false [("name", PyInt 5)] ∅ = (Err TypeError, ∅)
  /\ GraphConvolution_init glorot_example zeros_example 2 1 ph_example 0 false
       relu true false [("name", PyStr "my layer")] ∅
     = (Err (ValueError "'my layer_vars' is not a valid scope name"), ∅)
  /\ exists self,
       GraphConvolution_init glorot_example zeros_example 2 1 ph_example 0
         false relu true false [] ∅
       = (Ok self, <["graphconvolution" := 1%Z]> ∅)
       /\ name (gc_layer self) = PyStr "graphconvolution_1".
Proof.
  split; [reflexivity|]. split; [reflexivity|].
  eexists. split; reflexivity.
Qed.

Lemma Rsum_zero {A : Type} (l : list A) : Rsum (map (fun _ => 0%R) l) = 0%R.
Proof. induction l as [|a l IH]; simpl; [reflexivity|]. rewrite IH. lra. Qed.

Lemma Rsum_exchange {A B : Type} (f : A -> B -> R) (l1 : list A) (l2 : list B) :
  Rsum (map (fun a => Rsum (map (fun b => f a b) l2)) l1)
  = Rsum (map (fun b => Rsum (map (fun a => f a b) l1)) l2).
Proof.
  induction l1 as [|a l1 IH]; simpl.
  - by rewrite Rsum_zero.
  - rewrite IH, <- Rsum_map_plus. reflexivity.
Qed.

Lemma matmul_assoc (x y z : Tensor2) :
  dim1 x = dim0 y -> dim1 y = dim0 z ->
  (xy ← matmul x y; matmul xy z) = (yz ← matmul y z; matmul x yz).
Proof.
  intros Hxy Hyz. unfold matmul. rewrite Hxy, Hyz, !Nat.eqb_refl. simpl.
  rewrite ?Nat.eqb_refl. f_equal. apply build2_ext. intros i j Hi Hj.
  rewrite (Rsum_map_ext_in _
             (fun l => Rsum (map (fun k => (get2 x i k * get2 y k l * get2 z l j)%R)
                                 (seq 0 (dim0 y))))).
  - rewrite Rsum_exchange. apply Rsum_map_ext_in. intros k Hk.
    apply in_seq in Hk.
    rewrite (Rsum_map_ext_in _
               (fun l => (get2 y k l * get2 z l j * get2 x i k)%R))
      by (intros; ring).
    rewrite Rsum_map_scale.
    rewrite get2_build2 by lia. ring.
  - intros l Hl. apply in_seq in Hl.
    rewrite get2_build2 by lia. rewrite <- Rsum_map_scale.
    apply Rsum_map_ext_in. intros k _. reflexivity.
Qed.

(** X16. With features, the layer's [support · (X · W)] equals
    [(support · X) · W]: propagating the (dropped-out) features and then
    applying the weights gives the same output. *)
Theorem GraphConvolution_propagation_commutes_with_transform
    (self : GraphConvolution) (W X : Tensor2) (u : nat -> nat -> R) :
  featureless self = false ->
  lookup_var2 (vars (gc_layer self)) "weights" = Some W ->
  dim1 (support self) = dim0 X ->
  dim1 X = dim0 W ->
  GraphConvolution_call self X u
  = (sx ← matmul (support self) (dropped self X u);
     output ← matmul sx W;
     output ← (if bias self then
                 b ← lookup_var1 (vars (gc_layer self)) "bias";
                 add_bias output b
               else Some output);
     Some (gc_act self output)).
Proof.
  intros Hf HW HS HX. unfold GraphConvolution_call.
  fold (dropped self X u). rewrite HW, Hf. simpl.
  destruct (dropped_shape self X u) as [Hd0 Hd1].
  pose proof (matmul_assoc (support self) (dropped self X u) W) as Hassoc.
  rewrite Hd0, Hd1 in Hassoc. specialize (Hassoc HS HX).
  destruct (matmul (dropped self X u) W) as [xw|] eqn:Exw;
    destruct (matmul (support self) (dropped self X u)) as [sx|] eqn:Esx;
    simpl in *; first [reflexivity | by rewrite Hassoc | by rewrite <- Hassoc].
Qed.

Lemma GraphConvolution_propagation_commutes_with_transform_witness :
  GraphConvolution_call (gc_example false) X_example (fun _ _ => (1 / 4)%R)
  = (sx ← matmul (support (gc_example false))
                 (dropped (gc_example false) X_example (fun _ _ => (1 / 4)%R));
     output ← matmul sx W_example;
     output ← (if bias (gc_example false) then
                 b ← lookup_var1 (vars (gc_layer (gc_example false))) "bias";
                 add_bias output b
               else Some output);
     Some (gc_act (gc_example false) output)).
Proof.
  apply GraphConvolution_propagation_commutes_with_transform; reflexivity.
Defined.

(** ** PathEmbedding: lengths and the padded width *)

Lemma filter_zip_fst_length (p : Z) (a : list Z) :
  forall b : list Z,
    length a = length b ->
    length (List.filter (fun ps : Z * Z => (p =? ps.1)%Z) (zip a b))
    = length (List.filter (Z.eqb p) a).
Proof.
  induction a as [|x a IH]; intros [|y b] Hlen; try discriminate; [reflexivity|].
  simpl in Hlen. injection Hlen as Hlen.
  simpl. destruct (p =? x)%Z; simpl; rewrite (IH b Hlen); reflexivity.
Qed.

Lemma NoDup_bounded_length (l : list nat) (n : nat) :
  NoDup l -> Forall (fun x => (x < n)%nat) l -> (length l <= n)%nat.
Proof.
  intros Hnd Hall.
  transitivity (length (seq 0 n)); [|by rewrite length_seq].
  apply submseteq_length, NoDup_submseteq; [exact Hnd|].
  intros x Hx. rewrite Forall_forall in Hall. apply Hall in Hx.
  apply elem_of_seq. lia.
Qed.

(** X17. When no two steps share a (path id, position) pair and positions are
    non-negative, no path has more steps than the padded width
    [max_len = max(seqs) + 1]. *)
Theorem PathEmbedding_lens_within_padded_width
    (self : PathEmbedding) (m p : Z) :
  length (idx self) = length (seqs self) ->
  NoDup (zip (idx self) (seqs self)) ->
  Forall (fun s => (0 <= s)%Z) (seqs self) ->
  reduce_max (seqs self) = Some m ->
  (count_steps p (idx self) <= m + 1)%Z.
Proof.
  intros Hlen Hnd Hnn Hm. pose proof (reduce_max_ge _ _ Hm) as Hmax.
  unfold count_steps. rewrite <- (filter_zip_fst_length p _ _ Hlen).
  set (mine := List.filter (fun ps : Z * Z => (p =? ps.1)%Z)
                           (zip (idx self) (seqs self))).
  assert (Hmine : forall ps, ps ∈ mine ->
                    ps ∈ zip (idx self) (seqs self) /\ ps.1 = p).
  { intros ps Hps. apply list_elem_of_In, filter_In in Hps as [H1 H2].
    split; [by apply list_elem_of_In|]. lia. }
  assert (Hndm : NoDup mine).
  { apply NoDup_ListNoDup, List.NoDup_filter. by apply NoDup_ListNoDup. }
  assert (Hle : (length ((fun ps : Z * Z => Z.to_nat ps.2) <$> mine)
                 <= Z.to_nat (m + 1))%nat).
  { apply NoDup_bounded_length.
    - apply NoDup_fmap_2_strong; [|exact Hndm].
      intros [q1 s1] [q2 s2] H1 H2 Heq.
      destruct (Hmine _ H1) as [Hz1 Hp1]. destruct (Hmine _ H2) as [Hz2 Hp2].
      simpl in *. subst q1 q2. f_equal.
      apply elem_of_zip_r in Hz1, Hz2. rewrite Forall_forall in Hnn.
      specialize (Hnn _ Hz1) as Hs1. specialize (Hnn _ Hz2) as Hs2. lia.
    - apply Forall_forall. intros x Hx.
      apply list_elem_of_fmap in Hx as ([q s] & -> & Hqs).
      destruct (Hmine _ Hqs) as [Hz _]. apply elem_of_zip_r in Hz.
      rewrite Forall_forall in Hnn, Hmax.
      specialize (Hnn _ Hz). specialize (Hmax _ Hz). simpl in *. lia. }
  rewrite length_fmap in Hle.
  assert (0 <= m)%Z; [|lia].
  destruct (seqs self) as [|s ss]; [discriminate|].
  inversion Hnn; inversion Hmax; subst. lia.
Qed.

Lemma PathEmbedding_lens_within_padded_width_witness :
  (count_steps 0 (idx pe_example) <= 1 + 1)%Z.
Proof.
  apply (PathEmbedding_lens_within_padded_width pe_example 1 0).
  - reflexivity.
  - apply (bool_decide_unpack _). vm_compute. exact I.
  - repeat constructor; lia.
  - reflexivity.
Defined.
